(** * Electron simulation: a shallow embedding of [main.py]

    The program simulates point charges in a rectangular arena.  Every
    electron owns a SimPy process whose body ([Electron.update]) computes
    the Coulomb force on that electron, integrates its velocity and
    position and reflects it at the walls, then sleeps for [TIME_STEP].
    The driver calls [env.step()] repeatedly; each call resumes one
    process.

    The embedding is generic in the scalar type: the methods are written
    once over an interface [Scalar] of the arithmetic the program uses and
    are then read at two instances, binary64 floating point (what Python's
    [float] is) for running the program on concrete inputs, and the real
    numbers (what the documentation calls "real-valued") for the algebraic
    properties. *)

From Stdlib Require Import List Bool Arith Lia Reals Lra Psatz.
From Stdlib Require PrimFloat FloatOps SpecFloat.
From stdpp Require Import base list.

#[local] Set Warnings "-inexact-float".
#[local] Open Scope nat_scope.

(** ** Exceptions *)

(** The exceptions the modelled code can raise: Python's float division,
    SimPy's [Environment.step] on an empty queue, SimPy's [Timeout] with a
    negative delay, and a process without its electron. *)
Inductive exn : Type :=
| ZeroDivisionError
| EmptySchedule
| ValueError
| IndexError.

Inductive result (A : Type) : Type :=
| Ok (a : A)
| Raise (e : exn).

Arguments Ok {A} a.
Arguments Raise {A} e.

Definition bind {A B : Type} (m : result A) (k : A -> result B) : result B :=
  match m with
  | Ok a => k a
  | Raise e => Raise e
  end.

Notation "'do' v <- m ; k" := (bind m (fun v => k))
  (at level 10, v name, m at level 100, k at level 200).

(** Monadic left fold: a [for] loop whose body may raise. *)
Fixpoint foldM {A B : Type} (f : A -> B -> result A) (a : A) (l : list B)
  : result A :=
  match l with
  | [] => Ok a
  | b :: l' => do a' <- f a b; foldM f a' l'
  end.

(** ** Scalars *)

(** The operations [main.py] applies to numbers.  [fdiv] is the quotient
    for a non-zero divisor; the check Python makes before dividing is in
    [truediv] below.  [pow2 v] is [v ** 2], [hypot] is [math.hypot]. *)
Class Scalar (F : Type) : Type := {
  zero : F;
  fadd : F -> F -> F;
  fsub : F -> F -> F;
  fmul : F -> F -> F;
  fdiv : F -> F -> F;
  fneg : F -> F;
  fabs : F -> F;
  pow2 : F -> F;
  hypot : F -> F -> F;
  feq : F -> F -> bool;
  flt : F -> F -> bool;
  fle : F -> F -> bool
}.

(** The population size, line 10. *)
Class Population : Type := NUM_ELECTRONS : nat.

(** The numbers of the CONFIGURATION block of [main.py] (lines 6-18) that
    the physics uses, and the literal [1e-12] of line 54. *)
Class Constants (F : Type) : Type := {
  WIDTH : F;
  HEIGHT : F;
  SCALE : F;
  TIME_STEP : F;
  ELECTRON_MASS : F;
  ELECTRON_CHARGE : F;
  K_CONST : F;
  V0 : F;
  MIN_DIST : F
}.

(** The random source: [random.random()], a draw and the next generator
    state. *)
Class RandomSource (G F : Type) : Type := {
  random : G -> F * G
}.

Declare Scope py_scope.
Delimit Scope py_scope with py.
Infix "+#" := fadd (at level 50, left associativity) : py_scope.
Infix "-#" := fsub (at level 50, left associativity) : py_scope.
Infix "*#" := fmul (at level 40, left associativity) : py_scope.
Infix "<#?" := flt (at level 70, no associativity) : py_scope.
Infix "<=#?" := fle (at level 70, no associativity) : py_scope.
Notation "a >=#? b" := (fle b a) (at level 70, no associativity) : py_scope.
#[local] Open Scope py_scope.

(** ** Data model *)

(** An [Electron] object.  The attributes [env] and [process] are
    references into the environment below and are not stored. *)
Record Electron (F : Type) : Type := mkElectron {
  id : nat;
  x : F;
  y : F;
  vx : F;
  vy : F;
  force_x : F;
  force_y : F
}.

Arguments mkElectron {F} _ _ _ _ _ _ _.
Arguments id {F} _.
Arguments x {F} _.
Arguments y {F} _.
Arguments vx {F} _.
Arguments vy {F} _.
Arguments force_x {F} _.
Arguments force_y {F} _.

(** A scheduled SimPy event: the tuple [(time, priority, eid, event)] of
    [Environment._queue].  The event's only callback resumes the process
    of the electron at index [ev_process] of [env.electrons]. *)
Record Event (F : Type) : Type := mkEvent {
  ev_time : F;
  ev_priority : nat;
  ev_eid : nat;
  ev_process : nat
}.

Arguments mkEvent {F} _ _ _ _.
Arguments ev_time {F} _.
Arguments ev_priority {F} _.
Arguments ev_eid {F} _.
Arguments ev_process {F} _.

(** The SimPy environment with the attribute [electrons] that
    [ElectronSim.__init__] attaches to it.  [ElectronSim.electrons] is the
    same list object as [env.electrons], so the simulation is this one
    store. *)
Record Environment (F : Type) : Type := mkEnvironment {
  now : F;
  queue : list (Event F);
  eid : nat;
  electrons : list (Electron F)
}.

Arguments mkEnvironment {F} _ _ _ _.
Arguments now {F} _.
Arguments queue {F} _.
Arguments eid {F} _.
Arguments electrons {F} _.

Definition URGENT : nat := 0.
Definition NORMAL : nat := 1.

Section Model.

Context {F : Type} {SF : Scalar F} {CF : Constants F} {PN : Population}.

(** Python's [a / b] on floats. *)
Definition truediv (a b : F) : result F :=
  if feq b zero then Raise ZeroDivisionError else Ok (fdiv a b).

(** *** Electron *)

Definition set_force (fx fy : F) (self : Electron F) : Electron F :=
  mkElectron (id self) (x self) (y self) (vx self) (vy self) fx fy.

(** Lines 50-58: the body of the loop of [calculate_forces] for one
    [other]. *)
Definition calculate_forces_body (self other : Electron F)
  : result (Electron F) :=
  if negb (Nat.eqb (id other) (id self)) then
    let dx := x self -# x other in
    let dy := y self -# y other in
    let dist := hypot dx dy in
    if dist <#? MIN_DIST then Ok self
    else
      do force_mag <- truediv (K_CONST *# pow2 ELECTRON_CHARGE) (pow2 dist);
      do ux <- truediv dx dist;
      let fx := force_x self +# force_mag *# ux in
      do uy <- truediv dy dist;
      let fy := force_y self +# force_mag *# uy in
      Ok (set_force fx fy self)
  else Ok self.

(** Lines 46-58.  [others] is [self.env.electrons], which contains [self]
    too; the loop reads only [id], [x] and [y] of its elements. *)
Definition calculate_forces (self : Electron F) (others : list (Electron F))
  : result (Electron F) :=
  foldM calculate_forces_body (set_force zero zero self) others.

(** Lines 60-67. *)
Definition update_kinematics (self : Electron F) : result (Electron F) :=
  do ax <- truediv (force_x self) ELECTRON_MASS;
  let vx' := vx self +# ax *# TIME_STEP in
  do ay <- truediv (force_y self) ELECTRON_MASS;
  let vy' := vy self +# ay *# TIME_STEP in
  let x' := x self +# vx' *# TIME_STEP in
  let y' := y self +# vy' *# TIME_STEP in
  Ok (mkElectron (id self) x' y' vx' vy' (force_x self) (force_y self)).

Definition max_x : F := WIDTH *# SCALE.
Definition max_y : F := HEIGHT *# SCALE.

(** Lines 73-78. *)
Definition handle_boundaries_x (self : Electron F) : Electron F :=
  if x self <=#? zero then
    mkElectron (id self) zero (y self) (fabs (vx self)) (vy self)
               (force_x self) (force_y self)
  else if x self >=#? max_x then
    mkElectron (id self) max_x (y self) (fneg (fabs (vx self))) (vy self)
               (force_x self) (force_y self)
  else self.

(** Lines 80-85. *)
Definition handle_boundaries_y (self : Electron F) : Electron F :=
  if y self <=#? zero then
    mkElectron (id self) (x self) zero (vx self) (fabs (vy self))
               (force_x self) (force_y self)
  else if y self >=#? max_y then
    mkElectron (id self) (x self) max_y (vx self) (fneg (fabs (vy self)))
               (force_x self) (force_y self)
  else self.

(** Lines 69-85. *)
Definition handle_boundaries (self : Electron F) : Electron F :=
  handle_boundaries_y (handle_boundaries_x self).

(** A method call [self.m()] on the electron at index [i] of the shared
    list: the method sees the live list (through [self.env.electrons]) and
    its writes to [self] land in that list. *)
Definition invoke (m : Electron F -> list (Electron F) -> result (Electron F))
  (i : nat) (store : list (Electron F)) : result (list (Electron F)) :=
  match store !! i with
  | None => Raise IndexError
  | Some self => do self' <- m self store; Ok (<[i := self']> store)
  end.

(** Lines 34-41: one iteration of the loop of [update], up to the
    [yield]. *)
Definition update_body (i : nat) (store : list (Electron F))
  : result (list (Electron F)) :=
  do store1 <- invoke calculate_forces i store;
  do store2 <- invoke (fun self _ => update_kinematics self) i store1;
  invoke (fun self _ => Ok (handle_boundaries self)) i store2.

(** *** The SimPy environment *)

(** Python's comparison of the queue's tuples: the first component that
    differs decides.  Event ids are unique, so the fourth component is
    never compared. *)
Definition event_lt (a b : Event F) : bool :=
  if feq (ev_time a) (ev_time b) then
    if Nat.eqb (ev_priority a) (ev_priority b) then
      Nat.ltb (ev_eid a) (ev_eid b)
    else Nat.ltb (ev_priority a) (ev_priority b)
  else ev_time a <#? ev_time b.

(** [heapq.heappush] and [heapq.heappop], observed through what is popped:
    the queue is kept in the order of [event_lt] and the least tuple is
    its head. *)
Fixpoint heappush (q : list (Event F)) (e : Event F) : list (Event F) :=
  match q with
  | [] => [e]
  | h :: q' => if event_lt e h then e :: q else h :: heappush q' e
  end.

(** [Environment.schedule(event, priority, delay)]. *)
Definition schedule (env : Environment F) (priority : nat) (delay : F)
  (process : nat) : Environment F :=
  mkEnvironment (now env)
    (heappush (queue env)
       (mkEvent (now env +# delay) priority (eid env) process))
    (S (eid env)) (electrons env).

(** [env.timeout(delay)] yielded by a process: SimPy's [Timeout] refuses a
    negative delay and schedules itself with priority [NORMAL]. *)
Definition timeout (env : Environment F) (delay : F) (process : nat)
  : result (Environment F) :=
  if delay <#? zero then Raise ValueError
  else Ok (schedule env NORMAL delay process).

(** Resuming the process of the electron at index [i]: the generator
    [update] runs one iteration of its loop on the live store and yields a
    timeout (lines 32-44).

    An exception inside the iteration is reported here by the call of
    [env.step()] that resumed the process.  SimPy itself lets that call
    return, queues the failed process as an event and raises from the later
    call that pops it; the exception is the same, the call that raises is
    not.  Runs without an exception are not affected. *)
Definition resume (env : Environment F) (i : nat) : result (Environment F) :=
  do store' <- update_body i (electrons env);
  timeout (mkEnvironment (now env) (queue env) (eid env) store') TIME_STEP i.

(** [Environment.step()]: pop the next event, advance the clock to it and
    run its callback (line 128). *)
Definition env_step (env : Environment F) : result (Environment F) :=
  match queue env with
  | [] => Raise EmptySchedule
  | ev :: q' =>
      resume (mkEnvironment (ev_time ev) q' (eid env) (electrons env))
             (ev_process ev)
  end.

(** [n] calls of [env.step()] (lines 127-128 make ten per frame). *)
Fixpoint run_steps (n : nat) (env : Environment F) : result (Environment F) :=
  match n with
  | O => Ok env
  | S n' => do env' <- env_step env; run_steps n' env'
  end.

(** *** ElectronSim *)

(** [random.uniform(a, b)] is [a + (b - a) * random()]. *)
Definition uniform {G : Type} {RG : RandomSource G F} (a b : F) (g : G)
  : F * G :=
  let (r, g') := random g in (a +# (b -# a) *# r, g').

(** [simpy.Environment()]. *)
Definition new_environment : Environment F := mkEnvironment zero [] 0 [].

(** Lines 95-99: one iteration of the loop of [ElectronSim.__init__].
    Constructing the electron creates its process, whose [Initialize]
    event is scheduled with priority [URGENT] and no delay; the electron
    is then appended to the list. *)
Definition add_electron {G : Type} {RG : RandomSource G F}
  (st : Environment F * G) (i : nat) : Environment F * G :=
  let (env, g0) := st in
  let (ux, g1) := uniform zero WIDTH g0 in
  let (uy, g2) := uniform zero HEIGHT g1 in
  let (vx0, g3) := uniform (fneg V0) V0 g2 in
  let (vy0, g4) := uniform (fneg V0) V0 g3 in
  let self := mkElectron i (ux *# SCALE) (uy *# SCALE) vx0 vy0 zero zero in
  let env' := schedule env URGENT zero (length (electrons env)) in
  (mkEnvironment (now env') (queue env') (eid env')
     (electrons env' ++ [self]), g4).

(** Lines 88-99. *)
Definition ElectronSim_init {G : Type} {RG : RandomSource G F}
  (env : Environment F) (g : G) : Environment F * G :=
  fold_left add_electron (seq 0 NUM_ELECTRONS) (env, g).

(** Lines 101-102. *)
Definition get_positions (sim : Environment F) : list (F * F) :=
  map (fun e => (x e, y e)) (electrons sim).

End Model.

(** ** Rendering and the driver loop *)

(** [int(v)]: truncation toward zero, or [None] where Python raises
    (OverflowError on an infinity, ValueError on a NaN). *)
Class ToInt (F : Type) : Type := to_int : F -> option Z.

(** The event types the driver loop distinguishes (line 123). *)
Inductive pygame_event : Type :=
| QUIT
| OTHER.

(** Where the driver loop stands once the event batches given are used
    up: it has left the loop (line 136), it is still running, or an
    exception ended the program in [env.step()] or in [draw]. *)
Inductive loop_status (F : Type) : Type :=
| Exited (env : Environment F)
| Running (env : Environment F)
| StepRaised (e : exn)
| DrawRaised.

Arguments Exited {F} env.
Arguments Running {F} env.
Arguments StepRaised {F} e.
Arguments DrawRaised {F}.

Section Rendering.

Context {F : Type} {SF : Scalar F} {CF : Constants F} {TI : ToInt F}.

(** Lines 106-107: [int(v / SCALE)]. *)
Definition to_pixel (v : F) : option Z :=
  match truediv v SCALE with
  | Ok q => to_int q
  | Raise _ => None
  end.

(** Lines 105-108: the centres of the circles drawn, in the order of the
    snapshot, or [None] when a conversion raised. *)
Fixpoint draw_circles (positions : list (F * F)) : option (list (Z * Z)) :=
  match positions with
  | [] => Some []
  | (px, py) :: rest =>
      match to_pixel px with
      | None => None
      | Some cx =>
          match to_pixel py with
          | None => None
          | Some cy =>
              match draw_circles rest with
              | None => None
              | Some circles => Some ((cx, cy) :: circles)
              end
          end
      end
  end.

(** Lines 104-108. *)
Definition draw (sim : Environment F) : option (list (Z * Z)) :=
  draw_circles (get_positions sim).

(** Lines 122-124: does the batch of events polled contain a [QUIT]? *)
Definition has_quit (batch : list pygame_event) : bool :=
  existsb (fun e => match e with QUIT => true | OTHER => false end) batch.

(** Lines 120-134: the loop of [main], one iteration per batch of events
    that [pygame.event.get()] returns.  An iteration polls the events,
    calls [env.step()] ten times and renders; a [QUIT] ends the loop only
    at the next test of [running].  The result lists the frames rendered. *)
Fixpoint main_loop (batches : list (list pygame_event)) (env : Environment F)
  : list (list (Z * Z)) * loop_status F :=
  match batches with
  | [] => ([], Running env)
  | batch :: rest =>
      match run_steps 10 env with
      | Raise e => ([], StepRaised e)
      | Ok env' =>
          match draw env' with
          | None => ([], DrawRaised)
          | Some frame =>
              if has_quit batch then ([frame], Exited env')
              else
                let (frames, status) := main_loop rest env' in
                (frame :: frames, status)
          end
      end
  end.

End Rendering.

(** ** Observations

    Definitions used to state the properties: what parts of the state a
    method reads or keeps, the shape of the queue at the start of a time
    step, and the draws of a random source. *)

Section Observations.

Context {F : Type} {SF : Scalar F} {CF : Constants F} {PN : Population}.

(** What a method must leave alone to be a pure force update. *)
Definition kinematics (e : Electron F) : nat * F * F * F * F :=
  (id e, x e, y e, vx e, vy e).

(** What the loop reads of the other electrons. *)
Definition placement (e : Electron F) : nat * F * F := (id e, x e, y e).

(** One iteration of [update], seen from [self]. *)
Definition update_self (self : Electron F) (store : list (Electron F))
  : result (Electron F) :=
  do self1 <- calculate_forces self store;
  do self2 <- update_kinematics self1;
  Ok (handle_boundaries self2).

(** [k] pending events for the instant [t], for the processes [from],
    [from + 1], ..., with increasing event ids. *)
Definition pending (t : F) (p e0 from k : nat) : list (Event F) :=
  map (fun j => mkEvent t p (e0 + j) j) (seq from k).

(** Adding [TIME_STEP] to the clock value [t] yields a later instant. *)
Definition clock_advances (t : F) : bool :=
  negb (feq (t +# TIME_STEP) t) && negb (flt (t +# TIME_STEP) t)
  && feq (t +# TIME_STEP) (t +# TIME_STEP).

(** The environment at the start of a time step: every process has one
    pending event, all for the same instant and in index order. *)
Definition round_ready (env : Environment F) (t : F) (p e0 : nat) : Prop :=
  queue env = pending t p e0 0 (length (electrons env)) /\
  clock_advances t = true.

(** The processes [k], [k + 1], ..., [k + m - 1] run one after the other
    on the shared list. *)
Fixpoint sweep (m k : nat) (store : list (Electron F))
  : result (list (Electron F)) :=
  match m with
  | O => Ok store
  | S m' => do store' <- update_body k store; sweep m' (S k) store'
  end.

(** The reading of a time step in which all forces come from the positions
    at its start: the accumulators an electron holds after the step from
    [env] to [env'] are those [calculate_forces] yields on the list of
    [env]. *)
Definition forces_from_snapshot (env env' : Environment F) : Prop :=
  forall i self self',
    electrons env !! i = Some self ->
    electrons env' !! i = Some self' ->
    exists self1,
      calculate_forces self (electrons env) = Ok self1 /\
      force_x self' = force_x self1 /\ force_y self' = force_y self1.

(** The reading of the coincident-particle policy that speaks of a whole
    time step: when the two electrons of [env] are at the same coordinates,
    both hold zero accumulators after the time step from [env] to [env']. *)
Definition zero_mutual_force (env env' : Environment F) : Prop :=
  forall a b a' b',
    electrons env = [a; b] -> x a = x b -> y a = y b ->
    electrons env' = [a'; b'] ->
    force_x a' = zero /\ force_y a' = zero /\
    force_x b' = zero /\ force_y b' = zero.

(** A position snapshot of a run, or the exception that ended it. *)
Definition snapshot_after (n : nat) (sim : Environment F)
  : result (list (F * F)) :=
  do sim' <- run_steps n sim; Ok (get_positions sim').

(** Every queued event names an electron of the list. *)
Definition events_valid (env : Environment F) : Prop :=
  Forall (fun ev => ev_process ev < length (electrons env))%nat (queue env).

(** [k] time steps: each is one sweep over the whole list. *)
Fixpoint time_steps (k : nat) (store : list (Electron F))
  : result (list (Electron F)) :=
  match k with
  | O => Ok store
  | S k' => do store' <- sweep (length store) 0 store; time_steps k' store'
  end.

(** Two accumulating electrons that agree on what the loop body reads and
    on the accumulators. *)
Definition same_reading (a b : Electron F) : Prop :=
  placement a = placement b /\ force_x a = force_x b /\ force_y a = force_y b.

Definition same_outcome (r1 r2 : result (Electron F)) : Prop :=
  match r1, r2 with
  | Ok a, Ok b => same_reading a b
  | Raise e1, Raise e2 => e1 = e2
  | _, _ => False
  end.

(** The accumulators of a force computation, or the exception raised. *)
Definition forces_of (r : result (Electron F)) : result (F * F) :=
  do self <- r; Ok (force_x self, force_y self).

(** The electrons whose id differs from that of [self]. *)
Definition strangers (self : Electron F) (others : list (Electron F))
  : list (Electron F) :=
  List.filter (fun other => negb (Nat.eqb (id other) (id self))) others.

Context {G : Type} {RG : RandomSource G F}.

(** The first [k] draws of a generator, and the generator after them. *)
Fixpoint draws (k : nat) (g : G) : list F :=
  match k with
  | O => []
  | S k' => let (r, g') := random g in r :: draws k' g'
  end.

Fixpoint advance (k : nat) (g : G) : G :=
  match k with
  | O => g
  | S k' => advance k' (snd (random g))
  end.

(** The electron that [ElectronSim.__init__] creates for index [i] from
    the generator state [g] (lines 95-99). *)
Definition drawn_electron (i : nat) (g : G) : Electron F :=
  let g1 := snd (random g) in
  let g2 := snd (random g1) in
  let g3 := snd (random g2) in
  mkElectron i
    ((zero +# (WIDTH -# zero) *# fst (random g)) *# SCALE)
    ((zero +# (HEIGHT -# zero) *# fst (random g1)) *# SCALE)
    (fneg V0 +# (V0 -# fneg V0) *# fst (random g2))
    (fneg V0 +# (V0 -# fneg V0) *# fst (random g3))
    zero zero.

End Observations.

(** ** The two scalar instances *)

(** *** Binary64 floating point: Python's [float]

    [v ** 2] is the correctly rounded square and [math.hypot] is taken as
    the rounded square root of the rounded sum of squares, which is exact
    (the absolute value) when one argument is zero.

    Two differences from Python remain outside the values the examples
    reach: [v ** 2] raises [OverflowError] where the square here is an
    infinity, and the C library's [hypot] may differ from the formula above
    in the last bit and does not overflow on intermediate squares. *)
Module Float64.

Import PrimFloat.

#[export] Instance float_scalar : Scalar float :=
  Build_Scalar float
    0%float                                  (* zero *)
    PrimFloat.add PrimFloat.sub PrimFloat.mul PrimFloat.div
    PrimFloat.opp PrimFloat.abs
    (fun v => PrimFloat.mul v v)             (* pow2 *)
    (fun a b => PrimFloat.sqrt
       (PrimFloat.add (PrimFloat.mul a a) (PrimFloat.mul b b)))  (* hypot *)
    PrimFloat.eqb PrimFloat.ltb PrimFloat.leb.

(** The constants as [main.py] writes them. *)
#[export] Instance float_constants : Constants float :=
  Build_Constants float
    1000%float              (* WIDTH *)
    800%float               (* HEIGHT *)
    1e-4%float              (* SCALE *)
    5e-7%float              (* TIME_STEP *)
    9.1093837e-31%float     (* ELECTRON_MASS *)
    (-1.602e-19)%float      (* ELECTRON_CHARGE *)
    8.99e9%float            (* K_CONST *)
    1e3%float               (* V0 *)
    1e-12%float.            (* MIN_DIST *)

#[export] Instance ten_electrons : Population := 10.

(** A random source that replays a recorded tape of draws (and returns
    [0.0] once the tape is used up). *)
#[export] Instance tape_random : RandomSource (list float) float :=
  Build_RandomSource (list float) float
    (fun g =>
       match g with
       | [] => (0%float, [])
       | r :: g' => (r, g')
       end).

(** [int()] on a binary64 value, read off its sign, mantissa and
    exponent. *)
Definition float_to_int (v : float) : option Z :=
  match FloatOps.Prim2SF v with
  | SpecFloat.S754_zero _ => Some 0%Z
  | SpecFloat.S754_infinity _ => None
  | SpecFloat.S754_nan => None
  | SpecFloat.S754_finite s m e =>
      let a := if (0 <=? e)%Z then (Z.pos m * 2 ^ e)%Z
               else Z.shiftr (Z.pos m) (- e) in
      Some (if s then (- a)%Z else a)
  end.

#[export] Instance float_int : ToInt float := float_to_int.

End Float64.

(** *** The real numbers *)
Module RealScalars.

#[local] Open Scope R_scope.

Definition Reqb (a b : R) : bool := if Req_dec_T a b then true else false.
Definition Rltb (a b : R) : bool := if Rlt_dec a b then true else false.
Definition Rleb (a b : R) : bool := if Rle_dec a b then true else false.

Definition Rpow2 (v : R) : R := v * v.
Definition Rhypot (a b : R) : R := sqrt (a * a + b * b).

#[export] Instance real_scalar : Scalar R :=
  Build_Scalar R
    0                                        (* zero *)
    Rplus Rminus Rmult Rdiv Ropp Rabs Rpow2 Rhypot Reqb Rltb Rleb.

(** The constants of [main.py], read as the decimal numbers written. *)
#[export] Instance real_constants : Constants R :=
  Build_Constants R
    1000                    (* WIDTH *)
    800                     (* HEIGHT *)
    1e-4                    (* SCALE *)
    5e-7                    (* TIME_STEP *)
    9.1093837e-31           (* ELECTRON_MASS *)
    (-1.602e-19)            (* ELECTRON_CHARGE *)
    8.99e9                  (* K_CONST *)
    1e3                     (* V0 *)
    1e-12.                  (* MIN_DIST *)

(** The arena of lines 70-71. *)
Definition in_arena (e : Electron R) : Prop :=
  0 <= x e <= max_x /\ 0 <= y e <= max_y.

(** The Coulomb term of lines 56-58 for a pair at distance [r]. *)
Definition coulomb (r : R) : R :=
  K_CONST * Rpow2 ELECTRON_CHARGE / Rpow2 r.

(** The forward-Euler update of lines 62-67 when the division succeeds. *)
Definition euler (self : Electron R) : Electron R :=
  let vx' := vx self + force_x self / ELECTRON_MASS * TIME_STEP in
  let vy' := vy self + force_y self / ELECTRON_MASS * TIME_STEP in
  mkElectron (id self) (x self + vx' * TIME_STEP) (y self + vy' * TIME_STEP)
    vx' vy' (force_x self) (force_y self).

(** The invariant of a running simulation: the queue is not empty and
    names electrons only. *)
Definition runnable (env : Environment R) : Prop :=
  queue env <> [] /\ events_valid env.

(** One time step of an electron on which no force acts: it drifts with
    its velocity and is reflected at the walls. *)
Definition free_flight (e : Electron R) : Electron R :=
  handle_boundaries
    (mkElectron (id e) (x e + vx e * TIME_STEP) (y e + vy e * TIME_STEP)
       (vx e) (vy e) 0 0).

(** [int()] on a real number: the integer part toward zero. *)
Definition Rtrunc (r : R) : Z :=
  if Rle_dec 0 r then Int_part r else (- Int_part (- r))%Z.

#[export] Instance real_int : ToInt R := fun r => Some (Rtrunc r).

(** A circle centre inside the window of [WIDTH] x [HEIGHT] pixels. *)
Definition in_window (c : Z * Z) : Prop :=
  (0 <= fst c <= 1000)%Z /\ (0 <= snd c <= 800)%Z.

(** The largest Coulomb term the distance floor lets through. *)
Definition coulomb_max : R := coulomb MIN_DIST.

End RealScalars.

(** ** A concrete run in binary64 *)
Module Example.

Import Float64.
Import PrimFloat.

(** Recorded draws for ten electrons (four per electron: x, y, vx, vy).
    The electrons start on the line y = 0.04 m, 1 cm apart, at rest except
    the first, which moves right at 500 m/s. *)
Definition tape : list float :=
  [ 0.1; 0.5; 0.75; 0.5;   0.2; 0.5; 0.5; 0.5;   0.3; 0.5; 0.5; 0.5;
    0.4; 0.5; 0.5; 0.5;    0.5; 0.5; 0.5; 0.5;   0.6; 0.5; 0.5; 0.5;
    0.7; 0.5; 0.5; 0.5;    0.8; 0.5; 0.5; 0.5;   0.9; 0.5; 0.5; 0.5;
    0.95; 0.5; 0.5; 0.5 ]%float.

(** The simulation as constructed, and after one time step (the ten calls
    of [env.step()] of one frame). *)
Definition sim0 : Environment float :=
  fst (ElectronSim_init new_environment tape).

Definition sim1 : Environment float :=
  Eval vm_compute in
    match run_steps 10 sim0 with
    | Ok env => env
    | Raise _ => sim0
    end.

(** The first electron after that time step, and the list after the
    force phase of the second electron at the start. *)
Definition electron0 : Electron float :=
  Eval vm_compute in
    default (mkElectron 0 0 0 0 0 0 0)%float (electrons sim1 !! 0).

Definition forces1 : list (Electron float) :=
  Eval vm_compute in
    match invoke calculate_forces 1 (electrons sim0) with
    | Ok store => store
    | Raise _ => []
    end.

(** The x-force the second electron holds after the time step, and the
    x-force that the positions at the start of the step give it. *)
Definition force1_live : float := (-0x1.5533d54cd0abp-80)%float.
Definition force1_snapshot : float := (-0x1.7a23a0c936cc7p-80)%float.

(** The simulation after the first call of [env.step()]. *)
Definition sim0_step : Environment float :=
  Eval vm_compute in
    match env_step sim0 with
    | Ok env => env
    | Raise _ => sim0
    end.

(** The second electron as constructed, and an electron at the same place
    with another velocity and stale accumulators. *)
Definition electron1 : Electron float :=
  Eval vm_compute in
    default (mkElectron 0 0 0 0 0 0 0)%float (electrons sim0 !! 1).

Definition electron1_fast : Electron float :=
  mkElectron 1 (x electron1) (y electron1) 123%float (-7)%float
    5%float 5%float.

(** A second random source: a cursor into the recorded tape. *)
#[export] Instance cursor_random : RandomSource nat float :=
  Build_RandomSource nat float (fun k => (nth k tape 0%float, S k)).

(** A simulation without electrons. *)
Definition no_electrons : Population := 0%nat.

(** Recorded draws for two electrons built at the same point: the first
    moves at (500, -500) m/s, the second is at rest. *)
Definition two_electrons : Population := 2%nat.

Definition pair_tape : list float :=
  [ 0.5; 0.5; 0.75; 0.25;   0.5; 0.5; 0.5; 0.5 ]%float.

(** That simulation as constructed, and after one time step (two calls
    of [env.step()]). *)
Definition pair0 : Environment float :=
  fst (ElectronSim_init (PN := two_electrons) new_environment pair_tape).

Definition pair1 : Environment float :=
  Eval vm_compute in
    match run_steps 2 pair0 with
    | Ok env => env
    | Raise _ => pair0
    end.

(** The force the second electron of the pair holds after that step. *)
Definition pair_force_x : float := (-1.305147826260948e-21)%float.
Definition pair_force_y : float := 1.305147826260948e-21%float.

End Example.

(** ** Concrete electrons over the reals *)
Module RealExample.

#[local] Open Scope R_scope.

(** Two electrons 5 cm apart, and one in the middle of the arena. *)
Definition electron_a : Electron R := mkElectron 0 (3 / 100) (4 / 100) 0 0 0 0.
Definition electron_b : Electron R := mkElectron 1 0 0 0 0 0 0.
Definition electron_c : Electron R :=
  mkElectron 2 (5 / 100) (4 / 100) 1000 (-1000) 0 0.

(** An electron at the coordinates of [electron_c]. *)
Definition electron_d : Electron R :=
  mkElectron 3 (5 / 100) (4 / 100) 0 0 0 0.

(** An environment that holds [electron_c] and [electron_d]. *)
Definition arena_env : Environment R :=
  mkEnvironment 0 [] 0%nat [electron_c; electron_d].

(** The same two electrons at the start of a time step. *)
Definition pair_env : Environment R :=
  mkEnvironment 0 (pending 0 URGENT 0 0 2) 2%nat [electron_c; electron_d].

(** A random source whose every draw is one half. *)
#[export] Instance half_random : RandomSource unit R :=
  Build_RandomSource unit R (fun g => (1 / 2, g)).

End RealExample.

(** * Properties *)

(** ** The result monad *)

Lemma bind_Ok {A B : Type} (m : result A) (k : A -> result B) (b : B) :
  bind m k = Ok b <-> exists a, m = Ok a /\ k a = Ok b.
Proof.
  destruct m as [a|e]; simpl; split.
  - intros Hk. exists a. split; [reflexivity|exact Hk].
  - intros [a' [Ha Hk]]. injection Ha as ->. exact Hk.
  - discriminate.
  - intros [a' [Ha _]]. discriminate.
Qed.

Ltac inv_bind H :=
  let a := fresh "r" in
  let Ha := fresh "Hr" in
  apply bind_Ok in H; destruct H as [a [Ha H]].

(** ** Structure of one process iteration (any scalar type) *)

Section Structure.

Context {F : Type} {SF : Scalar F} {CF : Constants F}.

Lemma calculate_forces_body_kinematics (self other self' : Electron F) :
  calculate_forces_body self other = Ok self' ->
  kinematics self' = kinematics self.
Proof.
  unfold calculate_forces_body.
  destruct (negb (id other =? id self)); [|intros [= <-]; reflexivity].
  destruct (flt _ _); [intros [= <-]; reflexivity|].
  intros H. inv_bind H. inv_bind H. inv_bind H.
  injection H as <-. reflexivity.
Qed.

Lemma foldM_body_kinematics (others : list (Electron F)) :
  forall self self',
    foldM calculate_forces_body self others = Ok self' ->
    kinematics self' = kinematics self.
Proof.
  induction others as [|o others IH]; simpl; intros self self' H.
  - injection H as <-. reflexivity.
  - inv_bind H. apply IH in H. rewrite H.
    eapply calculate_forces_body_kinematics; eassumption.
Qed.

Lemma calculate_forces_kinematics (self self' : Electron F) others :
  calculate_forces self others = Ok self' ->
  kinematics self' = kinematics self.
Proof.
  unfold calculate_forces. intros H.
  apply foldM_body_kinematics in H. exact H.
Qed.

(** The loop body reads [id], [x], [y] of [self]; of its accumulators it
    only adds to them, so the starting values are forgotten by the
    reset. *)
Lemma calculate_forces_reset (self : Electron F) a b others :
  calculate_forces (set_force a b self) others = calculate_forces self others.
Proof. reflexivity. Qed.

Lemma calculate_forces_body_reads (self o1 o2 : Electron F) :
  placement o1 = placement o2 ->
  calculate_forces_body self o1 = calculate_forces_body self o2.
Proof.
  unfold placement, calculate_forces_body. intros [= -> -> ->]. reflexivity.
Qed.

Lemma foldM_body_reads (l1 : list (Electron F)) :
  forall l2 self,
    map placement l1 = map placement l2 ->
    foldM calculate_forces_body self l1 = foldM calculate_forces_body self l2.
Proof.
  induction l1 as [|o1 l1 IH]; intros [|o2 l2] self Hm; try discriminate.
  - reflexivity.
  - simpl in Hm.
    assert (Ho : placement o1 = placement o2) by congruence.
    assert (Hl : map placement l1 = map placement l2) by congruence.
    simpl. rewrite (calculate_forces_body_reads self o1 o2 Ho).
    destruct (calculate_forces_body self o2); simpl; [apply IH; exact Hl|reflexivity].
Qed.

Lemma calculate_forces_reads (self : Electron F) l1 l2 :
  map placement l1 = map placement l2 ->
  calculate_forces self l1 = calculate_forces self l2.
Proof. apply foldM_body_reads. Qed.

Lemma placement_insert_set_force i (store : list (Electron F)) self a b :
  store !! i = Some self ->
  map placement (<[i := set_force a b self]> store) = map placement store.
Proof.
  intros Hi. pose proof (lookup_lt_Some _ _ _ Hi) as Hlt.
  apply list_eq. intros j. rewrite !list_lookup_fmap.
  destruct (decide (i = j)) as [<-|Hne].
  - rewrite list_lookup_insert_eq by exact Hlt. rewrite Hi. reflexivity.
  - rewrite list_lookup_insert_ne by exact Hne. reflexivity.
Qed.

Lemma invoke_Ok m i (store store' : list (Electron F)) :
  invoke m i store = Ok store' <->
  exists self self', store !! i = Some self /\ m self store = Ok self' /\
                     store' = <[i := self']> store.
Proof.
  unfold invoke. destruct (store !! i) as [self|]; split.
  - intros H. inv_bind H. injection H as <-. eauto.
  - intros (s & s' & [= <-] & Hm & ->). rewrite Hm. reflexivity.
  - discriminate.
  - intros (s & s' & Hs & _). discriminate.
Qed.

Lemma update_body_self i (store : list (Electron F)) self :
  store !! i = Some self ->
  update_body i store =
  do self' <- update_self self store; Ok (<[i := self']> store).
Proof.
  intros Hi. pose proof (lookup_lt_Some _ _ _ Hi) as Hlt.
  unfold update_body, update_self, invoke. rewrite Hi.
  destruct (calculate_forces self store) as [self1|e]; [simpl|reflexivity].
  rewrite list_lookup_insert_eq by exact Hlt.
  destruct (update_kinematics self1) as [self2|e]; [simpl|reflexivity].
  rewrite list_lookup_insert_eq by (rewrite length_insert; exact Hlt).
  simpl. rewrite !list_insert_insert_eq. reflexivity.
Qed.

Lemma update_body_Ok i (store store' : list (Electron F)) :
  update_body i store = Ok store' ->
  exists self self', store !! i = Some self /\
    update_self self store = Ok self' /\ store' = <[i := self']> store.
Proof.
  intros H. destruct (store !! i) as [self|] eqn:Hi.
  - rewrite (update_body_self _ _ _ Hi) in H. inv_bind H.
    injection H as <-. eauto.
  - unfold update_body, invoke in H. rewrite Hi in H. discriminate.
Qed.

(** C10: the force-computation phase of the electron at index [i] writes
    only that electron's two force accumulators.  Every other entry of the
    shared list is left as it was, and the identity, position and velocity
    of every entry (the caller's included) are unchanged; the accumulators
    are reset first, so the values they held before do not matter. *)
Theorem calculate_forces_writes_only_own_force
  (i : nat) (store store' : list (Electron F)) :
  invoke calculate_forces i store = Ok store' ->
  (forall j, j <> i -> store' !! j = store !! j) /\
  map kinematics store' = map kinematics store /\
  (forall self a b, store !! i = Some self ->
     invoke calculate_forces i (<[i := set_force a b self]> store) = Ok store').
Proof.
  intros H. apply invoke_Ok in H.
  destruct H as (self & self' & Hi & Hm & ->).
  pose proof (lookup_lt_Some _ _ _ Hi) as Hlt.
  apply calculate_forces_kinematics in Hm as Hk.
  split; [|split].
  - intros j Hj. apply list_lookup_insert_ne. congruence.
  - apply list_eq. intros j. rewrite !list_lookup_fmap.
    destruct (decide (i = j)) as [<-|Hne].
    + rewrite list_lookup_insert_eq by exact Hlt. rewrite Hi. simpl.
      rewrite Hk. reflexivity.
    + rewrite list_lookup_insert_ne by exact Hne. reflexivity.
  - intros self0 a b Hi0. rewrite Hi in Hi0. injection Hi0 as <-.
    apply invoke_Ok. exists (set_force a b self), self'.
    rewrite list_lookup_insert_eq by exact Hlt.
    split; [reflexivity|]. split.
    + rewrite calculate_forces_reset.
      rewrite (calculate_forces_reads self _ store); [exact Hm|].
      apply placement_insert_set_force. exact Hi.
    + rewrite list_insert_insert_eq. reflexivity.
Qed.

(** C3: the kinematic update of the electron at index [i] is forward
    Euler: the velocity becomes [v + (f / m) * dt], then the position
    becomes [p + v' * dt] with the new velocity [v'].  The new state is a
    function of that electron alone, and no other entry of the list is
    written. *)
Theorem update_kinematics_forward_euler
  (i : nat) (store : list (Electron F)) (self : Electron F) :
  store !! i = Some self ->
  feq ELECTRON_MASS zero = false ->
  let vx' := vx self +# fdiv (force_x self) ELECTRON_MASS *# TIME_STEP in
  let vy' := vy self +# fdiv (force_y self) ELECTRON_MASS *# TIME_STEP in
  let self' := mkElectron (id self)
                 (x self +# vx' *# TIME_STEP) (y self +# vy' *# TIME_STEP)
                 vx' vy' (force_x self) (force_y self) in
  update_kinematics self = Ok self' /\
  invoke (fun self _ => update_kinematics self) i store
    = Ok (<[i := self']> store) /\
  (forall j, j <> i -> <[i := self']> store !! j = store !! j).
Proof.
  intros Hi Hm vx' vy' self'.
  assert (Hk : update_kinematics self = Ok self').
  { unfold update_kinematics, truediv. rewrite Hm. reflexivity. }
  split; [exact Hk|]. split.
  - unfold invoke. rewrite Hi, Hk. reflexivity.
  - intros j Hj. apply list_lookup_insert_ne. congruence.
Qed.

End Structure.

(** ** The schedule of one time step (any scalar type) *)

Section Schedule.

Context {F : Type} {SF : Scalar F} {CF : Constants F}.

Lemma heappush_last (q : list (Event F)) (e : Event F) :
  Forall (fun h => event_lt e h = false) q -> heappush q e = q ++ [e].
Proof.
  induction 1 as [|h q Hh _ IH]; simpl.
  - reflexivity.
  - rewrite Hh, IH. reflexivity.
Qed.

Lemma pending_cons (t : F) p e0 from k :
  pending t p e0 from (S k)
  = mkEvent t p (e0 + from) from :: pending t p e0 (S from) k.
Proof. reflexivity. Qed.

Lemma pending_snoc (t : F) p e0 k :
  pending t p e0 0 (S k) = pending t p e0 0 k ++ [mkEvent t p (e0 + k) k].
Proof. unfold pending. rewrite seq_S, map_app. reflexivity. Qed.

Lemma update_body_length i (store store' : list (Electron F)) :
  update_body i store = Ok store' -> length store' = length store.
Proof.
  intros H. apply update_body_Ok in H.
  destruct H as (self & self' & _ & _ & ->). apply length_insert.
Qed.

(** One call of [env.step()] in the middle of a time step: the process
    [k] runs and its next event goes to the back of the queue. *)
Lemma env_step_in_round (t : F) (p e0 e N k : nat) (now0 : F)
  (store : list (Electron F)) :
  clock_advances t = true ->
  flt TIME_STEP zero = false ->
  k < N ->
  env_step (mkEnvironment now0
              (pending t p e0 k (N - k)
               ++ pending (t +# TIME_STEP) NORMAL e 0 k)
              (e + k) store)
  = do store' <- update_body k store;
    Ok (mkEnvironment t
          (pending t p e0 (S k) (N - S k)
           ++ pending (t +# TIME_STEP) NORMAL e 0 (S k))
          (e + S k) store').
Proof.
  intros Hclock Hdt Hk.
  unfold clock_advances in Hclock.
  apply andb_true_iff in Hclock as [Hclock Hrefl].
  apply andb_true_iff in Hclock as [Hne Hnlt].
  apply negb_true_iff in Hne, Hnlt.
  replace (N - k) with (S (N - S k)) by lia.
  rewrite pending_cons. unfold env_step. simpl queue. cbv iota.
  unfold resume. simpl electrons. simpl ev_process.
  destruct (update_body k store) as [store'|err]; [simpl|reflexivity].
  unfold timeout. rewrite Hdt. unfold schedule. simpl.
  rewrite heappush_last.
  - rewrite <- app_assoc, <- pending_snoc.
    replace (S (e + k)) with (e + S k) by lia. reflexivity.
  - apply Forall_app. split; apply Forall_forall; intros h Hh;
      apply list_elem_of_In, in_map_iff in Hh as (j & <- & Hj);
      apply in_seq in Hj;
      unfold event_lt; simpl.
    + rewrite Hne. exact Hnlt.
    + rewrite Hrefl. simpl. apply Nat.ltb_ge. lia.
Qed.

Lemma run_steps_in_round (t : F) (p e0 e N : nat) :
  clock_advances t = true ->
  flt TIME_STEP zero = false ->
  forall m k now0 (store : list (Electron F)),
    k + m = N ->
    run_steps m (mkEnvironment now0
                   (pending t p e0 k (N - k)
                    ++ pending (t +# TIME_STEP) NORMAL e 0 k)
                   (e + k) store)
    = do store' <- sweep m k store;
      Ok (mkEnvironment (match m with O => now0 | S _ => t end)
            (pending (t +# TIME_STEP) NORMAL e 0 N) (e + N) store').
Proof.
  intros Hclock Hdt. induction m as [|m IH]; intros k now0 store Hkm.
  - simpl. replace (N - k) with 0 by lia.
    replace k with N by lia. reflexivity.
  - simpl. rewrite env_step_in_round by (assumption || lia).
    destruct (update_body k store) as [store'|err]; [simpl|reflexivity].
    rewrite IH by lia.
    destruct (sweep m (S k) store'); simpl; [|reflexivity].
    destruct m; reflexivity.
Qed.

(** What a sweep leaves behind: entries below [k] and from [k + m] on are
    untouched, and the entry [j] in between is the update of the old
    entry against the list as it stood when [j] was reached, that is the
    new entries below [j] followed by the old entries from [j] on. *)
Lemma sweep_Ok (m : nat) :
  forall k (store store' : list (Electron F)),
    sweep m k store = Ok store' ->
    length store' = length store /\
    take k store' = take k store /\
    drop (k + m) store' = drop (k + m) store /\
    (forall j self, k <= j < k + m -> store !! j = Some self ->
       exists self',
         update_self self (take j store' ++ drop j store) = Ok self' /\
         store' !! j = Some self').
Proof.
  induction m as [|m IH]; intros k store store' H; simpl in H.
  - injection H as <-. repeat split; try reflexivity. intros; lia.
  - inv_bind H. rename r into store1.
    apply update_body_Ok in Hr as (self & self' & Hk & Hu & ->).
    pose proof (lookup_lt_Some _ _ _ Hk) as Hlt.
    apply IH in H as (Hlen & Htake & Hdrop & Hmid).
    rewrite length_insert in Hlen.
    assert (Htk : take k store' = take k store).
    { apply (f_equal (take k)) in Htake. rewrite !take_take in Htake.
      rewrite Nat.min_l in Htake by lia.
      rewrite Htake. apply take_insert_ge. lia. }
    split; [exact Hlen|]. split; [exact Htk|]. split.
    + replace (k + S m) with (S k + m) by lia. rewrite Hdrop.
      apply drop_insert_lt. lia.
    + intros j self0 Hj Hj0. destruct (decide (j = k)) as [->|Hne].
      * rewrite Hk in Hj0. injection Hj0 as <-. exists self'. split.
        -- rewrite Htk, take_drop. exact Hu.
        -- apply (f_equal (fun l => l !! k)) in Htake.
           rewrite !lookup_take_lt in Htake by lia. rewrite Htake.
           apply list_lookup_insert_eq. exact Hlt.
      * destruct (Hmid j self0) as (self1 & Hu1 & Hs1); [lia| |].
        -- rewrite list_lookup_insert_ne by lia. exact Hj0.
        -- exists self1. split; [|exact Hs1].
           rewrite drop_insert_lt in Hu1 by lia. exact Hu1.
Qed.

(** C1, as the program has it: in one time step (one resumption of every
    process, in index order) the force on the electron at index [i] is
    computed from the list as it stands when that process runs: the
    electrons before [i] already carry their positions of the end of this
    step, the electrons from [i] on still carry those of its start.  Each
    electron is integrated and reflected right after its own force
    computation, and the queue is ready for the next time step. *)
Theorem forces_use_live_positions
  (env env' : Environment F) (t : F) (p e0 : nat) :
  round_ready env t p e0 ->
  run_steps (length (electrons env)) env = Ok env' ->
  (forall i self, electrons env !! i = Some self ->
     exists self1 self2,
       calculate_forces self
         (take i (electrons env') ++ drop i (electrons env)) = Ok self1 /\
       update_kinematics self1 = Ok self2 /\
       electrons env' !! i = Some (handle_boundaries self2)) /\
  length (electrons env') = length (electrons env) /\
  queue env' = pending (t +# TIME_STEP) NORMAL (eid env) 0
                 (length (electrons env')).
Proof.
  intros [Hq Hclock] Hrun.
  destruct env as [now0 q e store]. simpl in *. subst q.
  remember (length store) as N eqn:HN.
  destruct (flt TIME_STEP zero) eqn:Hdt.
  { (* a negative delay: the first timeout raises *)
    destruct N as [|N].
    - simpl in Hrun. injection Hrun as <-. simpl.
      destruct store; [|discriminate].
      split; [intros i self Hi; discriminate|]. split; reflexivity.
    - exfalso. simpl in Hrun. unfold env_step, resume, timeout in Hrun.
      rewrite pending_cons in Hrun. simpl in Hrun. rewrite Hdt in Hrun.
      destruct (update_body 0 store); discriminate. }
  pose proof (run_steps_in_round t p e0 e N Hclock Hdt N 0 now0 store
                (Nat.add_0_l N)) as Hround.
  replace (N - 0) with N in Hround by lia.
  replace (e + 0) with e in Hround by lia.
  change (pending (t +# TIME_STEP) NORMAL e 0 0) with (@nil (Event F))
    in Hround.
  rewrite app_nil_r in Hround.
  rewrite Hround in Hrun. inv_bind Hrun. rename r into store'.
  injection Hrun as <-. simpl.
  apply sweep_Ok in Hr as (Hlen & _ & _ & Hmid).
  split; [|split; [congruence|rewrite Hlen, <- HN; reflexivity]].
  intros i self Hi. pose proof (lookup_lt_Some _ _ _ Hi) as Hlt.
  destruct (Hmid i self) as (self' & Hu & Hs); [lia|exact Hi|].
  unfold update_self in Hu. inv_bind Hu. inv_bind Hu.
  injection Hu as <-. eauto.
Qed.

End Schedule.

(** ** Determinism (any scalar type, any two random sources) *)

Section Determinism.

Context {F : Type} {SF : Scalar F} {CF : Constants F} {PN : Population}.

Lemma draws_add {G : Type} {RG : RandomSource G F} (a b : nat) :
  forall g : G, draws (a + b) g = draws a g ++ draws b (advance a g).
Proof.
  induction a as [|a IH]; intros g; simpl.
  - reflexivity.
  - destruct (random g) as [r g']. simpl. rewrite IH. reflexivity.
Qed.

Lemma length_draws {G : Type} {RG : RandomSource G F} (k : nat) :
  forall g : G, length (draws k g) = k.
Proof.
  induction k as [|k IH]; intros g; simpl.
  - reflexivity.
  - destruct (random g) as [r g']. simpl. rewrite IH. reflexivity.
Qed.

Lemma add_electron_generator {G : Type} {RG : RandomSource G F}
  (env : Environment F) (g : G) (i : nat) :
  snd (add_electron (env, g) i) = advance 4 g.
Proof.
  unfold add_electron, uniform. simpl.
  destruct (random g) as [r1 g1]. simpl.
  destruct (random g1) as [r2 g2]. simpl.
  destruct (random g2) as [r3 g3]. simpl.
  destruct (random g3) as [r4 g4]. reflexivity.
Qed.

Lemma add_electron_draws {G1 G2 : Type}
  {R1 : RandomSource G1 F} {R2 : RandomSource G2 F}
  (env : Environment F) (g1 : G1) (g2 : G2) (i : nat) :
  draws 4 g1 = draws 4 g2 ->
  fst (add_electron (env, g1) i) = fst (add_electron (env, g2) i).
Proof.
  unfold add_electron, uniform. simpl.
  destruct (random g1) as [a1 h1]. destruct (random g2) as [b1 k1].
  destruct (random h1) as [a2 h2]. destruct (random k1) as [b2 k2].
  destruct (random h2) as [a3 h3]. destruct (random k2) as [b3 k3].
  destruct (random h3) as [a4 h4]. destruct (random k3) as [b4 k4].
  intros [= -> -> -> ->]. reflexivity.
Qed.

Lemma fold_add_electron_draws {G1 G2 : Type}
  {R1 : RandomSource G1 F} {R2 : RandomSource G2 F} (l : list nat) :
  forall (env : Environment F) (g1 : G1) (g2 : G2),
    draws (4 * length l) g1 = draws (4 * length l) g2 ->
    fst (fold_left add_electron l (env, g1))
    = fst (fold_left add_electron l (env, g2)).
Proof.
  induction l as [|i l IH]; intros env g1 g2 Hd.
  - reflexivity.
  - replace (4 * length (i :: l)) with (4 + 4 * length l) in Hd
      by (simpl; lia).
    rewrite !draws_add in Hd.
    apply app_inj_1 in Hd as [H4 Hrest];
      [|rewrite !length_draws; reflexivity].
    change (fold_left add_electron (i :: l) (env, g1))
      with (fold_left add_electron l (add_electron (env, g1) i)).
    change (fold_left add_electron (i :: l) (env, g2))
      with (fold_left add_electron l (add_electron (env, g2) i)).
    rewrite (surjective_pairing (add_electron (env, g1) i)).
    rewrite (surjective_pairing (add_electron (env, g2) i)).
    rewrite !add_electron_generator.
    rewrite (add_electron_draws env g1 g2 i H4).
    apply IH. exact Hrest.
Qed.

(** C8: two simulations constructed on fresh environments with the same
    configuration, from random sources that deliver the same draws (four
    per electron), are the same simulation and yield the same position
    snapshot after any number of calls of [env.step()]. *)
Theorem simulation_deterministic {G1 G2 : Type}
  {R1 : RandomSource G1 F} {R2 : RandomSource G2 F}
  (g1 : G1) (g2 : G2) (n : nat) :
  draws (4 * NUM_ELECTRONS) g1 = draws (4 * NUM_ELECTRONS) g2 ->
  fst (ElectronSim_init new_environment g1)
  = fst (ElectronSim_init new_environment g2) /\
  snapshot_after n (fst (ElectronSim_init new_environment g1))
  = snapshot_after n (fst (ElectronSim_init new_environment g2)).
Proof.
  intros Hd.
  assert (Hsim : fst (ElectronSim_init new_environment g1)
                 = fst (ElectronSim_init new_environment g2)).
  { unfold ElectronSim_init. apply fold_add_electron_draws.
    rewrite length_seq. exact Hd. }
  split; [exact Hsim|]. rewrite Hsim. reflexivity.
Qed.

End Determinism.

(** ** Construction and well-formed queues (any scalar type) *)

Section Construction.

Context {F : Type} {SF : Scalar F} {CF : Constants F} {PN : Population}.
Context {G : Type} {RG : RandomSource G F}.

Lemma add_electron_eq (env : Environment F) (g : G) (i : nat) :
  add_electron (env, g) i
  = (mkEnvironment (now env)
       (heappush (queue env)
          (mkEvent (now env +# zero) URGENT (eid env)
             (length (electrons env))))
       (S (eid env))
       (electrons env ++ [drawn_electron i g]),
     advance 4 g).
Proof.
  unfold add_electron, uniform, drawn_electron. simpl.
  destruct (random g) as [r1 g1]. simpl.
  destruct (random g1) as [r2 g2]. simpl.
  destruct (random g2) as [r3 g3]. simpl.
  destruct (random g3) as [r4 g4]. reflexivity.
Qed.

Lemma Forall_heappush (P : Event F -> Prop) q e :
  Forall P (heappush q e) <-> P e /\ Forall P q.
Proof.
  induction q as [|h q IH]; simpl.
  - rewrite Forall_singleton, Forall_nil. tauto.
  - destruct (event_lt e h).
    + rewrite Forall_cons. tauto.
    + rewrite !Forall_cons, IH. tauto.
Qed.

Lemma heappush_not_nil q (e : Event F) : heappush q e <> [].
Proof. destruct q as [|h q]; simpl; [|destruct (event_lt e h)]; discriminate. Qed.

Lemma ElectronSim_init_fold (l : list nat) :
  forall (env : Environment F) (g : G) (P : Electron F -> Prop),
    events_valid env ->
    Forall P (electrons env) ->
    (forall i g', P (drawn_electron i g')) ->
    let env' := fst (fold_left add_electron l (env, g)) in
    events_valid env' /\
    Forall P (electrons env') /\
    length (electrons env') = (length (electrons env) + length l)%nat /\
    (l <> [] -> queue env' <> []).
Proof.
  induction l as [|i l IH]; intros env g P Hv HP Hd; cbv zeta.
  - simpl. repeat split; try assumption; [lia|congruence].
  - change (fold_left add_electron (i :: l) (env, g))
      with (fold_left add_electron l (add_electron (env, g) i)).
    rewrite add_electron_eq.
    match goal with |- context [fold_left _ l (?e, ?h)] =>
      destruct (IH e h P) as (Hv' & HP' & Hlen & Hq) end.
    + unfold events_valid. simpl. apply Forall_heappush. split.
      * simpl. rewrite length_app. simpl. lia.
      * eapply Forall_impl; [exact Hv|]. intros ev Hev. simpl in Hev.
        rewrite length_app. simpl. lia.
    + simpl. apply Forall_app. split; [exact HP|].
      apply Forall_singleton. apply Hd.
    + exact Hd.
    + repeat split; try assumption.
      * rewrite Hlen. simpl. rewrite length_app. simpl. lia.
      * intros _. destruct l as [|j l].
        -- simpl. apply heappush_not_nil.
        -- apply Hq. discriminate.
Qed.

(** The constructed simulation is at the start of its first time step:
    the [Initialize] events of the processes are queued in index order,
    and the electrons carry their indices as ids. *)
Lemma ElectronSim_init_fold_queue (t0 : F) (l : list nat) :
  feq t0 t0 = true ->
  forall (env : Environment F) (g : G),
    now env +# zero = t0 ->
    queue env = pending t0 URGENT 0 0 (length (electrons env)) ->
    eid env = length (electrons env) ->
    let env' := fst (fold_left add_electron l (env, g)) in
    queue env' = pending t0 URGENT 0 0 (length (electrons env')) /\
    eid env' = length (electrons env') /\
    map id (electrons env') = map id (electrons env) ++ l.
Proof.
  intros Hrefl. induction l as [|i l IH]; intros env g Hnow Hq He; cbv zeta.
  - simpl. rewrite app_nil_r. repeat split; assumption.
  - change (fold_left add_electron (i :: l) (env, g))
      with (fold_left add_electron l (add_electron (env, g) i)).
    rewrite add_electron_eq.
    match goal with |- context [fold_left _ l (?e, ?h)] =>
      destruct (IH e h) as (Hq' & He' & Hid) end.
    + exact Hnow.
    + simpl. rewrite Hnow, Hq, He, length_app. simpl length.
      rewrite Nat.add_1_r, pending_snoc. apply heappush_last.
      apply Forall_forall. intros h Hh.
      apply list_elem_of_In, in_map_iff in Hh as (j & <- & Hj).
      apply in_seq in Hj. unfold event_lt. simpl.
      rewrite Hrefl. apply Nat.ltb_ge. lia.
    + simpl. rewrite He, length_app. simpl. lia.
    + split; [exact Hq'|]. split; [exact He'|].
      rewrite Hid. simpl. rewrite map_app, <- app_assoc. reflexivity.
Qed.

Lemma ElectronSim_init_round_ready (g : G) :
  feq (zero +# zero) (zero +# zero) = true ->
  clock_advances (zero +# zero) = true ->
  let sim := fst (ElectronSim_init new_environment g) in
  round_ready sim (zero +# zero) URGENT 0 /\
  map id (electrons sim) = seq 0 NUM_ELECTRONS.
Proof.
  intros Hrefl Hclock sim. unfold sim, ElectronSim_init.
  destruct (ElectronSim_init_fold_queue (zero +# zero) (seq 0 NUM_ELECTRONS)
              Hrefl new_environment g) as (Hq & _ & Hid);
    try reflexivity.
  split; [split; [exact Hq|exact Hclock]|exact Hid].
Qed.

End Construction.

(** ** Properties over the real numbers *)
Module RealFacts.

Import RealScalars.
#[local] Open Scope R_scope.

Lemma Rleb_true a b : Rleb a b = true <-> a <= b.
Proof. unfold Rleb. destruct (Rle_dec a b); split; (lra || discriminate || reflexivity || congruence). Qed.

Lemma Rleb_false a b : Rleb a b = false <-> b < a.
Proof. unfold Rleb. destruct (Rle_dec a b); split; (lra || discriminate || reflexivity || congruence). Qed.

Lemma Rltb_true a b : Rltb a b = true <-> a < b.
Proof. unfold Rltb. destruct (Rlt_dec a b); split; (lra || discriminate || reflexivity || congruence). Qed.

Lemma Rltb_false a b : Rltb a b = false <-> b <= a.
Proof. unfold Rltb. destruct (Rlt_dec a b); split; (lra || discriminate || reflexivity || congruence). Qed.

Lemma Reqb_true a b : Reqb a b = true <-> a = b.
Proof. unfold Reqb. destruct (Req_dec_T a b); split; (lra || discriminate || reflexivity || congruence). Qed.

Lemma Reqb_false a b : Reqb a b = false <-> a <> b.
Proof. unfold Reqb. destruct (Req_dec_T a b); split; (lra || discriminate || reflexivity || congruence). Qed.

(** Reading the scalar operations at the reals. *)
Ltac real_ops :=
  change (@zero R real_scalar) with 0 in *;
  change (@fadd R real_scalar) with Rplus in *;
  change (@fsub R real_scalar) with Rminus in *;
  change (@fmul R real_scalar) with Rmult in *;
  change (@fdiv R real_scalar) with Rdiv in *;
  change (@fneg R real_scalar) with Ropp in *;
  change (@fabs R real_scalar) with Rabs in *;
  change (@pow2 R real_scalar) with Rpow2 in *;
  change (@hypot R real_scalar) with Rhypot in *;
  change (@feq R real_scalar) with Reqb in *;
  change (@flt R real_scalar) with Rltb in *;
  change (@fle R real_scalar) with Rleb in *.

Lemma max_x_value : max_x = 1 / 10.
Proof. unfold max_x. simpl. lra. Qed.

Lemma max_y_value : max_y = 8 / 100.
Proof. unfold max_y. simpl. lra. Qed.

Lemma handle_boundaries_x_cases (self : Electron R) :
  (x self <= 0 /\
   handle_boundaries_x self
   = mkElectron (id self) 0 (y self) (Rabs (vx self)) (vy self)
       (force_x self) (force_y self)) \/
  (0 < x self /\ max_x <= x self /\
   handle_boundaries_x self
   = mkElectron (id self) max_x (y self) (- Rabs (vx self)) (vy self)
       (force_x self) (force_y self)) \/
  (0 < x self < max_x /\ handle_boundaries_x self = self).
Proof.
  unfold handle_boundaries_x. real_ops.
  destruct (Rleb (x self) 0) eqn:H0.
  - left. apply Rleb_true in H0. split; [exact H0|reflexivity].
  - apply Rleb_false in H0. right.
    destruct (Rleb max_x (x self)) eqn:H1.
    + left. apply Rleb_true in H1. repeat split; (assumption || reflexivity).
    + right. apply Rleb_false in H1. repeat split; (assumption || reflexivity).
Qed.

Lemma handle_boundaries_y_cases (self : Electron R) :
  (y self <= 0 /\
   handle_boundaries_y self
   = mkElectron (id self) (x self) 0 (vx self) (Rabs (vy self))
       (force_x self) (force_y self)) \/
  (0 < y self /\ max_y <= y self /\
   handle_boundaries_y self
   = mkElectron (id self) (x self) max_y (vx self) (- Rabs (vy self))
       (force_x self) (force_y self)) \/
  (0 < y self < max_y /\ handle_boundaries_y self = self).
Proof.
  unfold handle_boundaries_y. real_ops.
  destruct (Rleb (y self) 0) eqn:H0.
  - left. apply Rleb_true in H0. split; [exact H0|reflexivity].
  - apply Rleb_false in H0. right.
    destruct (Rleb max_y (y self)) eqn:H1.
    + left. apply Rleb_true in H1. repeat split; (assumption || reflexivity).
    + right. apply Rleb_false in H1. repeat split; (assumption || reflexivity).
Qed.

(** C9: boundary handling is the identity on an electron strictly inside
    the arena. *)
Theorem handle_boundaries_inside (self : Electron R) :
  0 < x self < max_x ->
  0 < y self < max_y ->
  handle_boundaries self = self.
Proof.
  intros Hx Hy. unfold handle_boundaries.
  destruct (handle_boundaries_x_cases self) as [[H _]|[(_ & H & _)|[_ ->]]];
    [lra|lra|].
  destruct (handle_boundaries_y_cases self) as [[H _]|[(_ & H & _)|[_ ->]]];
    [lra|lra|reflexivity].
Qed.

Lemma handle_boundaries_speed (self : Electron R) :
  Rabs (vx (handle_boundaries self)) = Rabs (vx self) /\
  Rabs (vy (handle_boundaries self)) = Rabs (vy self) /\
  force_x (handle_boundaries self) = force_x self /\
  force_y (handle_boundaries self) = force_y self.
Proof.
  unfold handle_boundaries.
  destruct (handle_boundaries_y_cases (handle_boundaries_x self))
    as [[_ ->]|[(_ & _ & ->)|[_ ->]]]; simpl;
  destruct (handle_boundaries_x_cases self)
    as [[_ ->]|[(_ & _ & ->)|[_ ->]]]; simpl;
  rewrite ?Rabs_Ropp, ?Rabs_Rabsolu; repeat split; reflexivity.
Qed.

Lemma Rabs_eq_square (a b : R) : Rabs a = Rabs b -> a * a = b * b.
Proof.
  intros Hab. change (Rsqr a = Rsqr b).
  rewrite (Rsqr_abs a), (Rsqr_abs b), Hab. reflexivity.
Qed.

(** C4: boundary handling keeps the absolute value of both velocity
    components, hence the squared speed and the kinetic energy
    [m * (vx^2 + vy^2) / 2]. *)
Theorem handle_boundaries_lossless (self : Electron R) :
  let self' := handle_boundaries self in
  Rabs (vx self') = Rabs (vx self) /\
  Rabs (vy self') = Rabs (vy self) /\
  vx self' * vx self' + vy self' * vy self'
  = vx self * vx self + vy self * vy self /\
  ELECTRON_MASS * (vx self' * vx self' + vy self' * vy self') / 2
  = ELECTRON_MASS * (vx self * vx self + vy self * vy self) / 2.
Proof.
  intros self'. unfold self'.
  destruct (handle_boundaries_speed self) as (Hx & Hy & _).
  apply Rabs_eq_square in Hx as Hx2. apply Rabs_eq_square in Hy as Hy2.
  repeat split; try assumption; rewrite Hx2, Hy2; reflexivity.
Qed.

(** *** The pairwise Coulomb term *)

Lemma Rhypot_nonneg a b : 0 <= Rhypot a b.
Proof. apply sqrt_pos. Qed.

Lemma Rhypot_opp a b : Rhypot (- a) (- b) = Rhypot a b.
Proof. unfold Rhypot. f_equal. ring. Qed.

Lemma Rhypot_swap a b c d : Rhypot (a - b) (c - d) = Rhypot (b - a) (d - c).
Proof. unfold Rhypot. f_equal. ring. Qed.

Lemma Rhypot_sqr a b : Rhypot a b * Rhypot a b = a * a + b * b.
Proof. unfold Rhypot. apply sqrt_sqrt. nra. Qed.

Lemma Rhypot_zero : Rhypot 0 0 = 0.
Proof. unfold Rhypot. replace (0 * 0 + 0 * 0) with 0 by ring. apply sqrt_0. Qed.

Lemma MIN_DIST_pos : 0 < MIN_DIST.
Proof. simpl. lra. Qed.

Lemma truediv_nonzero (a b : R) : b <> 0 -> truediv a b = Ok (a / b).
Proof.
  intros Hb. unfold truediv. real_ops.
  apply Reqb_false in Hb. rewrite Hb. reflexivity.
Qed.

Lemma calculate_forces_body_same_id (self other : Electron R) :
  id other = id self -> calculate_forces_body self other = Ok self.
Proof.
  intros Hid. unfold calculate_forces_body.
  rewrite Hid, Nat.eqb_refl. reflexivity.
Qed.

Lemma calculate_forces_body_near (self other : Electron R) :
  Rhypot (x self - x other) (y self - y other) < MIN_DIST ->
  calculate_forces_body self other = Ok self.
Proof.
  intros Hr. unfold calculate_forces_body. real_ops.
  apply Rltb_true in Hr. rewrite Hr.
  destruct (negb (id other =? id self)%nat); reflexivity.
Qed.

Lemma calculate_forces_body_far (self other : Electron R) :
  id other <> id self ->
  let r := Rhypot (x self - x other) (y self - y other) in
  MIN_DIST <= r ->
  calculate_forces_body self other
  = Ok (set_force
          (force_x self + coulomb r * ((x self - x other) / r))
          (force_y self + coulomb r * ((y self - y other) / r)) self).
Proof.
  intros Hid r Hr. pose proof MIN_DIST_pos as Hpos.
  unfold calculate_forces_body. real_ops. fold r.
  apply Nat.eqb_neq in Hid. rewrite Hid. simpl negb. cbv iota.
  apply Rltb_false in Hr as Hlt. rewrite Hlt.
  rewrite truediv_nonzero by (unfold Rpow2; nra).
  rewrite !truediv_nonzero by lra.
  reflexivity.
Qed.

Lemma coulomb_pos (r : R) : 0 < r -> 0 < coulomb r.
Proof.
  intros Hr. unfold coulomb, Rpow2. simpl.
  apply Rdiv_lt_0_compat; nra.
Qed.

(** C6: for two electrons with different ids at a distance [r] not below
    the floor, the loop body adds [(cx, cy)] to the accumulators of the
    one and [(-cx, -cy)] to those of the other, where [(cx, cy)] has
    magnitude [K * q^2 / r^2] and is a positive multiple of the vector
    from the other electron to this one. *)
Theorem coulomb_newton_third_law (a b : Electron R) :
  id a <> id b ->
  let r := Rhypot (x a - x b) (y a - y b) in
  MIN_DIST <= r ->
  let cx := coulomb r * ((x a - x b) / r) in
  let cy := coulomb r * ((y a - y b) / r) in
  calculate_forces_body a b
  = Ok (set_force (force_x a + cx) (force_y a + cy) a) /\
  calculate_forces_body b a
  = Ok (set_force (force_x b + - cx) (force_y b + - cy) b) /\
  Rhypot cx cy = coulomb r /\
  coulomb r = K_CONST * (ELECTRON_CHARGE * ELECTRON_CHARGE) / (r * r) /\
  0 < coulomb r / r /\
  cx = coulomb r / r * (x a - x b) /\
  cy = coulomb r / r * (y a - y b).
Proof.
  intros Hid r Hr cx cy. pose proof MIN_DIST_pos as Hpos.
  assert (Hr0 : 0 < r) by lra.
  pose proof (coulomb_pos r Hr0) as Hc.
  pose proof (Rhypot_sqr (x a - x b) (y a - y b)) as Hsq. fold r in Hsq.
  split; [|split; [|split; [|split; [|split; [|split]]]]].
  - apply calculate_forces_body_far; [congruence|exact Hr].
  - rewrite calculate_forces_body_far.
    + rewrite (Rhypot_swap (x b) (x a) (y b) (y a)). fold r.
      unfold cx, cy. f_equal. f_equal; field; lra.
    + exact Hid.
    + rewrite (Rhypot_swap (x b) (x a) (y b) (y a)). exact Hr.
  - unfold Rhypot.
    replace (cx * cx + cy * cy) with (coulomb r * coulomb r).
    + apply sqrt_square. lra.
    + unfold cx, cy.
      transitivity (coulomb r * coulomb r
                    * (((x a - x b) * (x a - x b) + (y a - y b) * (y a - y b))
                       / (r * r))); [|field; lra].
      rewrite <- Hsq. field. lra.
  - reflexivity.
  - apply Rdiv_lt_0_compat; assumption.
  - unfold cx. field. lra.
  - unfold cy. field. lra.
Qed.

(** *** The coincident-particle policy *)

Lemma foldM_app {A B : Type} (f : A -> B -> result A) (l1 l2 : list B) :
  forall a, foldM f a (l1 ++ l2) = do a' <- foldM f a l1; foldM f a' l2.
Proof.
  induction l1 as [|b l1 IH]; intros a; simpl.
  - reflexivity.
  - destruct (f a b); simpl; [apply IH|reflexivity].
Qed.

Lemma calculate_forces_body_total (self other : Electron R) :
  exists self', calculate_forces_body self other = Ok self'.
Proof.
  destruct (Nat.eq_dec (id other) (id self)) as [Hid|Hid].
  - exists self. apply calculate_forces_body_same_id. exact Hid.
  - destruct (Rlt_le_dec (Rhypot (x self - x other) (y self - y other))
                MIN_DIST) as [Hr|Hr].
    + exists self. apply calculate_forces_body_near. exact Hr.
    + eexists. apply calculate_forces_body_far; assumption.
Qed.

Lemma foldM_body_total (others : list (Electron R)) :
  forall self, exists self', foldM calculate_forces_body self others = Ok self'.
Proof.
  induction others as [|o others IH]; intros self; simpl.
  - exists self. reflexivity.
  - destruct (calculate_forces_body_total self o) as [self1 ->]. simpl.
    apply IH.
Qed.

(** Within one force computation: it never raises [ZeroDivisionError]; a
    pair closer than the floor adds nothing to the accumulators of either
    electron, so the accumulated force is the one computed without that
    neighbour; and two electrons at the same coordinates leave each
    other's accumulators at zero. *)
Lemma near_pairs_add_nothing :
  (forall self others, exists self', calculate_forces self others = Ok self') /\
  (forall a b,
     Rhypot (x a - x b) (y a - y b) < MIN_DIST ->
     calculate_forces_body a b = Ok a /\ calculate_forces_body b a = Ok b) /\
  (forall self other l1 l2,
     Rhypot (x self - x other) (y self - y other) < MIN_DIST ->
     calculate_forces self (l1 ++ other :: l2)
     = calculate_forces self (l1 ++ l2)) /\
  (forall a b,
     x a = x b -> y a = y b ->
     calculate_forces a [a; b] = Ok (set_force 0 0 a) /\
     calculate_forces b [a; b] = Ok (set_force 0 0 b)).
Proof.
  assert (Hnear : forall a b,
            Rhypot (x a - x b) (y a - y b) < MIN_DIST ->
            calculate_forces_body a b = Ok a /\
            calculate_forces_body b a = Ok b).
  { intros a b Hr. split; apply calculate_forces_body_near; [exact Hr|].
    rewrite Rhypot_swap. exact Hr. }
  assert (Hsame : forall a b : Electron R,
            x a = x b -> y a = y b ->
            Rhypot (x a - x b) (y a - y b) < MIN_DIST).
  { intros a b -> ->. rewrite !Rminus_diag, Rhypot_zero.
    exact MIN_DIST_pos. }
  split; [|split; [|split]].
  - intros self others. apply foldM_body_total.
  - exact Hnear.
  - intros self other l1 l2 Hr. unfold calculate_forces.
    rewrite !foldM_app.
    destruct (foldM calculate_forces_body (set_force zero zero self) l1)
      as [self1|e] eqn:Hl1; [simpl|reflexivity].
    rewrite calculate_forces_body_near; [reflexivity|].
    apply foldM_body_kinematics in Hl1. unfold kinematics in Hl1.
    simpl in Hl1.
    assert (Hx : x self1 = x self) by congruence.
    assert (Hy : y self1 = y self) by congruence.
    rewrite Hx, Hy. exact Hr.
  - intros a b Hx Hy. unfold calculate_forces. simpl foldM.
    split.
    + rewrite calculate_forces_body_same_id by reflexivity. simpl.
      rewrite calculate_forces_body_near; [reflexivity|].
      apply (Hsame (set_force zero zero a) b); assumption.
    + rewrite calculate_forces_body_near.
      * simpl. rewrite calculate_forces_body_same_id by reflexivity.
        reflexivity.
      * apply (Hsame (set_force zero zero b) a); symmetry; assumption.
Qed.

(** *** Steps of the simulation *)

Lemma update_kinematics_euler (self : Electron R) :
  update_kinematics self = Ok (euler self).
Proof.
  unfold update_kinematics.
  rewrite !truediv_nonzero by (simpl; lra). reflexivity.
Qed.

Lemma update_self_total (self : Electron R) (store : list (Electron R)) :
  exists self1,
    calculate_forces self store = Ok self1 /\
    update_self self store = Ok (handle_boundaries (euler self1)).
Proof.
  destruct (foldM_body_total store (set_force zero zero self)) as [self1 H1].
  exists self1. split; [exact H1|].
  unfold update_self, calculate_forces. rewrite H1. simpl.
  rewrite update_kinematics_euler. reflexivity.
Qed.

(** One call of [env.step()] over the reals never raises when the event
    at the head of the queue names an electron of the list. *)
Lemma env_step_total (env : Environment R) (ev : Event R) q self :
  queue env = ev :: q ->
  electrons env !! ev_process ev = Some self ->
  exists self1,
    calculate_forces self (electrons env) = Ok self1 /\
    env_step env
    = Ok (mkEnvironment (ev_time ev)
            (heappush q (mkEvent (ev_time ev + TIME_STEP) NORMAL (eid env)
                           (ev_process ev)))
            (S (eid env))
            (<[ev_process ev := handle_boundaries (euler self1)]>
               (electrons env))).
Proof.
  intros Hq Hi.
  destruct (update_self_total self (electrons env)) as (self1 & H1 & Hu).
  exists self1. split; [exact H1|].
  unfold env_step, resume. rewrite Hq. simpl electrons. simpl ev_process.
  rewrite (update_body_self _ _ _ Hi), Hu.
  cbv beta iota delta [bind]. unfold timeout. real_ops.
  assert (Hdt : Rltb TIME_STEP 0 = false) by (apply Rltb_false; simpl; lra).
  rewrite Hdt. reflexivity.
Qed.

Lemma env_step_runnable (env : Environment R) :
  runnable env ->
  exists ev q self self1,
    queue env = ev :: q /\
    electrons env !! ev_process ev = Some self /\
    calculate_forces self (electrons env) = Ok self1 /\
    env_step env
    = Ok (mkEnvironment (ev_time ev)
            (heappush q (mkEvent (ev_time ev + TIME_STEP) NORMAL (eid env)
                           (ev_process ev)))
            (S (eid env))
            (<[ev_process ev := handle_boundaries (euler self1)]>
               (electrons env))) /\
    runnable (mkEnvironment (ev_time ev)
            (heappush q (mkEvent (ev_time ev + TIME_STEP) NORMAL (eid env)
                           (ev_process ev)))
            (S (eid env))
            (<[ev_process ev := handle_boundaries (euler self1)]>
               (electrons env))).
Proof.
  intros [Hne Hv]. destruct (queue env) as [|ev q] eqn:Hq; [congruence|].
  unfold events_valid in Hv. rewrite Hq in Hv.
  apply Forall_cons in Hv as [Hev Hv].
  destruct (lookup_lt_is_Some_2 _ _ Hev) as [self Hi].
  destruct (env_step_total env ev q self Hq Hi) as (self1 & H1 & Hs).
  exists ev, q, self, self1. repeat split; try assumption.
  - apply heappush_not_nil.
  - unfold events_valid. simpl. rewrite length_insert.
    apply Forall_heappush. split; [exact Hev|exact Hv].
Qed.

Lemma handle_boundaries_in_arena (self : Electron R) :
  in_arena (handle_boundaries self).
Proof.
  pose proof max_x_value as Hmx. pose proof max_y_value as Hmy.
  unfold in_arena, handle_boundaries.
  destruct (handle_boundaries_y_cases (handle_boundaries_x self))
    as [[Hy ->]|[(Hy0 & Hy1 & ->)|[Hy ->]]]; simpl;
  destruct (handle_boundaries_x_cases self)
    as [[Hx Ex]|[(Hx0 & Hx1 & Ex)|[Hx Ex]]]; rewrite Ex in *; simpl in *; lra.
Qed.

(** C2: boundary handling puts any electron into the arena, so every
    call of [env.step()] leaves the electron it advanced inside
    [0, max_x] x [0, max_y] and the others where they were; and in a
    simulation constructed from a random source with draws in [0, 1],
    every electron is inside the arena after any number of calls, none of
    which raises. *)
Theorem positions_stay_in_arena :
  (forall self : Electron R, in_arena (handle_boundaries self)) /\
  (forall env env' : Environment R,
     env_step env = Ok env' ->
     exists ev q self',
       queue env = ev :: q /\
       electrons env' !! ev_process ev = Some self' /\
       in_arena self' /\
       (forall j, j <> ev_process ev ->
                  electrons env' !! j = electrons env !! j)) /\
  (forall (G : Type) (RG : RandomSource G R) (PN : Population) (g : G),
     (0 < NUM_ELECTRONS)%nat ->
     (forall g', 0 <= fst (random g') <= 1) ->
     forall n, exists env',
       run_steps n (fst (ElectronSim_init new_environment g)) = Ok env' /\
       Forall in_arena (electrons env')).
Proof.
  split; [exact handle_boundaries_in_arena|]. split.
  - intros env env' Hs. unfold env_step in Hs.
    destruct (queue env) as [|ev q] eqn:Hq; [discriminate|].
    unfold resume in Hs. simpl in Hs. inv_bind Hs.
    apply update_body_Ok in Hr as (self & self' & Hi & Hu & ->).
    unfold timeout in Hs. destruct (flt _ _); [discriminate|].
    injection Hs as <-. simpl.
    unfold update_self in Hu. inv_bind Hu. inv_bind Hu. injection Hu as <-.
    exists ev, q, (handle_boundaries r0). split; [reflexivity|]. split.
    + apply list_lookup_insert_eq. eapply lookup_lt_Some. exact Hi.
    + split; [apply handle_boundaries_in_arena|].
      intros j Hj. apply list_lookup_insert_ne. congruence.
  - intros G RG PN g HN Hrange.
    assert (Hinit : runnable (fst (ElectronSim_init new_environment g)) /\
                    Forall in_arena
                      (electrons (fst (ElectronSim_init new_environment g)))).
    { unfold ElectronSim_init.
      destruct (ElectronSim_init_fold (seq 0 NUM_ELECTRONS) new_environment g
                  in_arena) as (Hv & Ha & _ & Hq).
      - constructor.
      - constructor.
      - intros i g'. unfold in_arena. rewrite max_x_value, max_y_value.
        unfold drawn_electron. simpl.
        pose proof (Hrange g') as H1.
        pose proof (Hrange (snd (random g'))) as H2.
        lra.
      - split; [split|]; try assumption. apply Hq.
        destruct NUM_ELECTRONS; [lia|discriminate]. }
    destruct Hinit as [Hrun Harena].
    generalize dependent (fst (ElectronSim_init new_environment g)).
    intros env Hrun Harena n. revert env Hrun Harena.
    induction n as [|n IH]; intros env Hrun Harena.
    + exists env. split; [reflexivity|exact Harena].
    + destruct (env_step_runnable env Hrun)
        as (ev & q & self & self1 & Hq & Hi & H1 & Hs & Hrun').
      simpl. rewrite Hs. simpl. apply IH; [exact Hrun'|].
      simpl. apply Forall_insert; [exact Harena|].
      apply handle_boundaries_in_arena.
Qed.

(** *** A single electron *)

Lemma calculate_forces_alone (self : Electron R) :
  calculate_forces self [self] = Ok (set_force 0 0 self).
Proof.
  unfold calculate_forces. simpl.
  rewrite calculate_forces_body_same_id by reflexivity. reflexivity.
Qed.

Lemma euler_no_force (self : Electron R) :
  handle_boundaries (euler (set_force 0 0 self)) = free_flight self.
Proof.
  unfold free_flight, euler. simpl. f_equal. f_equal; lra.
Qed.

Lemma env_step_alone (env : Environment R) (ev : Event R) (self : Electron R) :
  queue env = [ev] -> ev_process ev = 0%nat -> electrons env = [self] ->
  exists ev',
    ev_process ev' = 0%nat /\
    env_step env
    = Ok (mkEnvironment (ev_time ev) [ev'] (S (eid env)) [free_flight self]).
Proof.
  intros Hq Hp He.
  destruct (env_step_total env ev [] self Hq) as (self1 & H1 & Hs).
  { rewrite Hp, He. reflexivity. }
  rewrite He, calculate_forces_alone in H1. injection H1 as <-.
  rewrite Hs, Hp, He, euler_no_force. simpl.
  eexists. split; [|reflexivity]. reflexivity.
Qed.

Lemma free_flight_speed (e : Electron R) :
  force_x (free_flight e) = 0 /\ force_y (free_flight e) = 0 /\
  Rabs (vx (free_flight e)) = Rabs (vx e) /\
  Rabs (vy (free_flight e)) = Rabs (vy e).
Proof.
  unfold free_flight.
  set (d := mkElectron (id e) (x e + vx e * TIME_STEP)
              (y e + vy e * TIME_STEP) (vx e) (vy e) 0 0).
  destruct (handle_boundaries_speed d) as (Hx & Hy & Hfx & Hfy).
  repeat split; assumption.
Qed.

(** C7: in a simulation of one electron, every call of [env.step()]
    succeeds and leaves the electron with zero accumulated force; each
    call moves it by its current velocity times [TIME_STEP] and applies
    the wall rule, so after [n] calls its state is [n] free flights of the
    constructed electron and the absolute values of its velocity
    components are the initial ones. *)
Theorem single_electron_feels_no_force
  (G : Type) (RG : RandomSource G R) (g : G) :
  let sim := fst (ElectronSim_init (PN := 1%nat) new_environment g) in
  exists e0,
    electrons sim = [e0] /\
    forall n, exists env',
      run_steps n sim = Ok env' /\
      electrons env' = [Nat.iter n free_flight e0] /\
      force_x (Nat.iter n free_flight e0) = 0 /\
      force_y (Nat.iter n free_flight e0) = 0 /\
      Rabs (vx (Nat.iter n free_flight e0)) = Rabs (vx e0) /\
      Rabs (vy (Nat.iter n free_flight e0)) = Rabs (vy e0).
Proof.
  intros sim. unfold sim, ElectronSim_init.
  change (seq 0 NUM_ELECTRONS) with [0%nat].
  change (fold_left add_electron [0%nat] (new_environment, g))
    with (add_electron (new_environment, g) 0%nat).
  rewrite add_electron_eq. simpl fst.
  exists (drawn_electron 0 g). split; [reflexivity|].
  set (e0 := drawn_electron 0 g).
  assert (Hfacts : forall n,
            force_x (Nat.iter n free_flight e0) = 0 /\
            force_y (Nat.iter n free_flight e0) = 0 /\
            Rabs (vx (Nat.iter n free_flight e0)) = Rabs (vx e0) /\
            Rabs (vy (Nat.iter n free_flight e0)) = Rabs (vy e0)).
  { induction n as [|n (_ & _ & IHx & IHy)].
    - repeat split; reflexivity.
    - simpl Nat.iter.
      destruct (free_flight_speed (Nat.iter n free_flight e0))
        as (Hfx & Hfy & Hx & Hy).
      repeat split; congruence. }
  assert (Hgen : forall n env ev e,
            queue env = [ev] -> ev_process ev = 0%nat ->
            electrons env = [e] ->
            exists env', run_steps n env = Ok env' /\
                         electrons env' = [Nat.iter n free_flight e]).
  { induction n as [|n IH]; intros env ev e Hq Hp He.
    - exists env. split; [reflexivity|exact He].
    - destruct (env_step_alone env ev e Hq Hp He) as (ev' & Hp' & Hs).
      simpl run_steps. rewrite Hs. cbv beta iota delta [bind].
      destruct (IH (mkEnvironment (ev_time ev) [ev'] (S (eid env))
                      [free_flight e])
                  ev' (free_flight e) eq_refl Hp' eq_refl)
        as (env' & Hrun & Hel).
      exists env'. split; [exact Hrun|].
      rewrite Hel. f_equal. clear. induction n as [|n IHn]; simpl.
      + reflexivity.
      + rewrite IHn. reflexivity. }
  intros n.
  match goal with |- context [run_steps n ?e] =>
    destruct (Hgen n e _ e0 eq_refl eq_refl eq_refl) as (env' & Hrun & Hel)
  end.
  exists env'. split; [exact Hrun|]. split; [exact Hel|]. apply Hfacts.
Qed.

End RealFacts.

(** ** The concrete runs *)
Module ExampleFacts.

Import Float64.
Import Example.

(** C1 fails as stated: after the ten calls of [env.step()] that advance
    the ten electrons of [sim0] by one time step, the force held by the
    electron at index 1 is not the force that the start-of-step positions
    give: electron 0 had already moved when it was computed. *)
Lemma forces_not_from_snapshot :
  round_ready sim0 zero URGENT 0 /\
  run_steps (length (electrons sim0)) sim0 = Ok sim1 /\
  force_x <$> electrons sim1 !! 1 = Some force1_live /\
  (force_x <$> (electrons sim0 !! 1 ≫= fun self =>
     match calculate_forces self (electrons sim0) with
     | Ok self1 => Some self1
     | Raise _ => None
     end)) = Some force1_snapshot /\
  ~ forces_from_snapshot sim0 sim1.
Proof.
  split; [split; vm_compute; reflexivity|].
  split; [vm_compute; reflexivity|].
  split; [vm_compute; reflexivity|].
  split; [vm_compute; reflexivity|].
  intros H.
  destruct (H 1 _ _ eq_refl eq_refl) as (self1 & Hc & Hx & _).
  vm_compute in Hc. injection Hc as <-.
  vm_compute in Hx.
  apply (f_equal (fun v => PrimFloat.eqb v force1_live)) in Hx.
  vm_compute in Hx. discriminate Hx.
Qed.

(** C5 fails as stated for a whole time step: the two electrons of
    [pair0] are built at the same coordinates, yet after the two calls of
    [env.step()] that advance them by one time step the second one holds a
    nonzero force.  The first electron had already left the common point
    when the second computed its force. *)
Lemma coincident_pair_feels_force :
  round_ready pair0 zero URGENT 0 /\
  run_steps (length (electrons pair0)) pair0 = Ok pair1 /\
  (exists a b a' b',
     electrons pair0 = [a; b] /\ x a = x b /\ y a = y b /\
     electrons pair1 = [a'; b'] /\
     force_x a' = zero /\ force_y a' = zero /\
     force_x b' = pair_force_x /\ force_y b' = pair_force_y) /\
  ~ zero_mutual_force pair0 pair1.
Proof.
  split; [split; vm_compute; reflexivity|].
  split; [vm_compute; reflexivity|].
  split.
  - do 4 eexists.
    split; [vm_compute; reflexivity|].
    repeat split; vm_compute; reflexivity.
  - intros H.
    edestruct H as (_ & _ & Hx & _);
      [vm_compute; reflexivity | reflexivity | reflexivity
      | vm_compute; reflexivity |].
    vm_compute in Hx.
    apply (f_equal (fun v => PrimFloat.eqb v pair_force_x)) in Hx.
    vm_compute in Hx. discriminate Hx.
Qed.

(** The first time step of [sim0] is such a step. *)
Lemma forces_use_live_positions_witness :
  round_ready sim0 zero URGENT 0 /\
  run_steps (length (electrons sim0)) sim0 = Ok sim1 /\
  (forall i self, electrons sim0 !! i = Some self ->
     exists self1 self2,
       calculate_forces self
         (take i (electrons sim1) ++ drop i (electrons sim0)) = Ok self1 /\
       update_kinematics self1 = Ok self2 /\
       electrons sim1 !! i = Some (handle_boundaries self2)).
Proof.
  assert (Hready : round_ready sim0 zero URGENT 0)
    by (split; vm_compute; reflexivity).
  assert (Hrun : run_steps (length (electrons sim0)) sim0 = Ok sim1)
    by (vm_compute; reflexivity).
  split; [exact Hready|]. split; [exact Hrun|].
  exact (proj1 (forces_use_live_positions sim0 sim1 zero URGENT 0
                  Hready Hrun)).
Defined.

(** The kinematic update of the first electron of [sim1]. *)
Lemma update_kinematics_forward_euler_witness :
  electrons sim1 !! 0 = Some electron0 /\
  feq ELECTRON_MASS zero = false /\
  exists self',
    update_kinematics electron0 = Ok self' /\
    invoke (fun self _ => update_kinematics self) 0 (electrons sim1)
    = Ok (<[0 := self']> (electrons sim1)).
Proof.
  assert (H1 : electrons sim1 !! 0 = Some electron0)
    by (vm_compute; reflexivity).
  assert (H2 : feq ELECTRON_MASS zero = false) by (vm_compute; reflexivity).
  split; [exact H1|]. split; [exact H2|].
  destruct (update_kinematics_forward_euler 0 (electrons sim1) electron0
              H1 H2) as (Ha & Hb & _).
  eexists. split; [exact Ha|exact Hb].
Defined.

(** The force phase of the second electron of [sim0]. *)
Lemma calculate_forces_writes_only_own_force_witness :
  invoke calculate_forces 1 (electrons sim0) = Ok forces1 /\
  (forall j, j <> 1 -> forces1 !! j = electrons sim0 !! j) /\
  map kinematics forces1 = map kinematics (electrons sim0).
Proof.
  assert (H : invoke calculate_forces 1 (electrons sim0) = Ok forces1)
    by (vm_compute; reflexivity).
  split; [exact H|].
  destruct (calculate_forces_writes_only_own_force 1 (electrons sim0)
              forces1 H) as (Ha & Hb & _).
  split; [exact Ha|exact Hb].
Defined.

(** The tape and the cursor into it deliver the same draws. *)
Lemma simulation_deterministic_witness :
  draws (4 * NUM_ELECTRONS) tape = draws (4 * NUM_ELECTRONS) 0 /\
  snapshot_after 10 (fst (ElectronSim_init new_environment tape))
  = snapshot_after 10 (fst (ElectronSim_init new_environment 0)).
Proof.
  assert (H : draws (4 * NUM_ELECTRONS) tape = draws (4 * NUM_ELECTRONS) 0)
    by (vm_compute; reflexivity).
  split; [exact H|].
  exact (proj2 (simulation_deterministic tape 0 10 H)).
Defined.

End ExampleFacts.

Module RealExampleFacts.

Import RealScalars.
Import RealFacts.
Import RealExample.
#[local] Open Scope R_scope.

(** A 3-4-5 triangle, in centimetres. *)
Lemma distance_a_b :
  Rhypot (x electron_a - x electron_b) (y electron_a - y electron_b) = 5 / 100.
Proof.
  unfold Rhypot. simpl.
  replace ((3 / 100 - 0) * (3 / 100 - 0) + (4 / 100 - 0) * (4 / 100 - 0))
    with (5 / 100 * (5 / 100)) by lra.
  apply sqrt_square. lra.
Qed.

(** [electron_a] and [electron_b] repel each other with opposite
    increments. *)
Lemma coulomb_newton_third_law_witness :
  id electron_a <> id electron_b /\
  MIN_DIST <= Rhypot (x electron_a - x electron_b)
                (y electron_a - y electron_b) /\
  exists cx cy,
    calculate_forces_body electron_a electron_b
    = Ok (set_force (0 + cx) (0 + cy) electron_a) /\
    calculate_forces_body electron_b electron_a
    = Ok (set_force (0 + - cx) (0 + - cy) electron_b).
Proof.
  assert (H1 : id electron_a <> id electron_b) by discriminate.
  assert (H2 : MIN_DIST <= Rhypot (x electron_a - x electron_b)
                             (y electron_a - y electron_b))
    by (rewrite distance_a_b; simpl; lra).
  split; [exact H1|]. split; [exact H2|].
  destruct (coulomb_newton_third_law electron_a electron_b H1 H2)
    as (Ha & Hb & _).
  eexists. eexists. split; [exact Ha|exact Hb].
Defined.

(** [electron_c] is strictly inside the arena. *)
Lemma handle_boundaries_inside_witness :
  0 < x electron_c < max_x /\ 0 < y electron_c < max_y /\
  handle_boundaries electron_c = electron_c.
Proof.
  assert (H1 : 0 < x electron_c < max_x)
    by (rewrite max_x_value; simpl; lra).
  assert (H2 : 0 < y electron_c < max_y)
    by (rewrite max_y_value; simpl; lra).
  split; [exact H1|]. split; [exact H2|].
  exact (handle_boundaries_inside electron_c H1 H2).
Defined.

(** Two electrons drawn from [half_random], three calls of
    [env.step()]. *)
Lemma positions_stay_in_arena_witness :
  (0 < 2)%nat /\
  (forall g' : unit, 0 <= fst (random g') <= 1) /\
  exists env',
    run_steps 3 (fst (ElectronSim_init (PN := 2%nat) new_environment tt))
    = Ok env' /\
    Forall in_arena (electrons env').
Proof.
  assert (H1 : (0 < 2)%nat) by lia.
  assert (H2 : forall g' : unit, 0 <= fst (random g') <= 1)
    by (intros g'; simpl; lra).
  split; [exact H1|]. split; [exact H2|].
  exact (proj2 (proj2 positions_stay_in_arena) unit half_random 2%nat tt
           H1 H2 3%nat).
Defined.

End RealExampleFacts.

(** * Further properties of the program *)

(** ** Force computation (any scalar type) *)

Section ForceReads.

Context {F : Type} {SF : Scalar F} {CF : Constants F}.

Lemma calculate_forces_body_own_id (self other : Electron F) :
  id other = id self -> calculate_forces_body self other = Ok self.
Proof.
  intros Hid. unfold calculate_forces_body.
  rewrite Hid, Nat.eqb_refl. reflexivity.
Qed.

Lemma foldM_body_strangers (others : list (Electron F)) (self : Electron F) :
  forall acc,
    id acc = id self ->
    foldM calculate_forces_body acc others
    = foldM calculate_forces_body acc (strangers self others).
Proof.
  induction others as [|o others IH]; intros acc Hacc.
  - reflexivity.
  - unfold strangers. simpl List.filter. fold (strangers self others).
    destruct (Nat.eqb (id o) (id self)) eqn:Ho; simpl negb; cbv iota.
    + apply Nat.eqb_eq in Ho. simpl foldM.
      rewrite calculate_forces_body_own_id by congruence.
      simpl. apply IH. exact Hacc.
    + simpl foldM.
      destruct (calculate_forces_body acc o) as [acc'|e] eqn:Hb;
        [simpl|reflexivity].
      apply IH. apply calculate_forces_body_kinematics in Hb.
      unfold kinematics in Hb. congruence.
Qed.

(** X1: self-exclusion goes by id.  The force computed for an electron is
    the one computed against the electrons with a different id: every
    entry of the list that carries its id, itself or another object, is
    passed over. *)
Theorem calculate_forces_skips_own_id
  (self : Electron F) (others : list (Electron F)) :
  calculate_forces self others
  = calculate_forces self (strangers self others).
Proof.
  unfold calculate_forces. apply foldM_body_strangers. reflexivity.
Qed.

Lemma calculate_forces_body_same_reading (a b other : Electron F) :
  same_reading a b ->
  same_outcome (calculate_forces_body a other) (calculate_forces_body b other).
Proof.
  intros (Hp & Hfx & Hfy). unfold placement in Hp.
  assert (Hid : id a = id b) by congruence.
  assert (Hx : x a = x b) by congruence.
  assert (Hy : y a = y b) by congruence.
  unfold calculate_forces_body. rewrite Hid, Hx, Hy.
  destruct (negb (id other =? id b)); [|repeat split; assumption].
  destruct (flt _ _); [repeat split; assumption|].
  destruct (truediv _ _) as [m|e]; [simpl|reflexivity].
  destruct (truediv _ _) as [ux|e]; [simpl|reflexivity].
  destruct (truediv _ _) as [uy|e]; [simpl|reflexivity].
  unfold same_reading, placement. simpl. rewrite Hid, Hx, Hy, Hfx, Hfy.
  repeat split; reflexivity.
Qed.

Lemma foldM_body_same_reading (others : list (Electron F)) :
  forall a b,
    same_reading a b ->
    same_outcome (foldM calculate_forces_body a others)
                 (foldM calculate_forces_body b others).
Proof.
  induction others as [|o others IH]; intros a b Hab; simpl.
  - exact Hab.
  - pose proof (calculate_forces_body_same_reading a b o Hab) as Hb.
    destruct (calculate_forces_body a o) as [a'|e1],
             (calculate_forces_body b o) as [b'|e2]; simpl in *;
      try contradiction.
    + apply IH. exact Hb.
    + exact Hb.
Qed.

(** X2: the force on an electron is a function of its own id and position
    and of the ids and positions of the others: velocities and the
    accumulators that the electrons held before are never read. *)
Theorem calculate_forces_reads_placements
  (self1 self2 : Electron F) (others1 others2 : list (Electron F)) :
  placement self1 = placement self2 ->
  map placement others1 = map placement others2 ->
  forces_of (calculate_forces self1 others1)
  = forces_of (calculate_forces self2 others2).
Proof.
  intros Hself Hothers.
  rewrite (calculate_forces_reads self1 others1 others2 Hothers).
  unfold calculate_forces.
  assert (Hs : same_reading (set_force zero zero self1)
                            (set_force zero zero self2)).
  { unfold same_reading, placement in *. simpl. repeat split; congruence. }
  pose proof (foldM_body_same_reading others2 _ _ Hs) as Ho.
  destruct (foldM calculate_forces_body (set_force zero zero self1) others2),
           (foldM calculate_forces_body (set_force zero zero self2) others2);
    simpl in *; try contradiction.
  - destruct Ho as (_ & -> & ->). reflexivity.
  - congruence.
Qed.

End ForceReads.

(** ** What a call of [env.step()] changes (any scalar type) *)

Section Steps.

Context {F : Type} {SF : Scalar F} {CF : Constants F}.

Lemma length_heappush (q : list (Event F)) (e : Event F) :
  length (heappush q e) = S (length q).
Proof.
  induction q as [|h q IH]; simpl.
  - reflexivity.
  - destruct (event_lt e h); simpl; [reflexivity|rewrite IH; reflexivity].
Qed.

Lemma handle_boundaries_id (self : Electron F) :
  id (handle_boundaries self) = id self.
Proof.
  unfold handle_boundaries, handle_boundaries_y, handle_boundaries_x.
  repeat match goal with |- context [if ?c then _ else _] => destruct c end;
    reflexivity.
Qed.

Lemma update_self_id (self self' : Electron F) store :
  update_self self store = Ok self' -> id self' = id self.
Proof.
  unfold update_self. intros H. inv_bind H. inv_bind H. injection H as <-.
  rewrite handle_boundaries_id.
  apply calculate_forces_kinematics in Hr. unfold kinematics in Hr.
  unfold update_kinematics in Hr0. inv_bind Hr0. inv_bind Hr0.
  injection Hr0 as <-. simpl. congruence.
Qed.

Lemma env_step_Ok (env env' : Environment F) :
  env_step env = Ok env' ->
  exists ev q self self',
    queue env = ev :: q /\
    electrons env !! ev_process ev = Some self /\
    update_self self (electrons env) = Ok self' /\
    env' = mkEnvironment (ev_time ev)
             (heappush q (mkEvent (ev_time ev +# TIME_STEP) NORMAL (eid env)
                            (ev_process ev)))
             (S (eid env))
             (<[ev_process ev := self']> (electrons env)).
Proof.
  unfold env_step. intros Hs.
  destruct (queue env) as [|ev q]; [discriminate|].
  unfold resume in Hs. simpl in Hs. inv_bind Hs.
  apply update_body_Ok in Hr as (self & self' & Hi & Hu & ->).
  unfold timeout in Hs. destruct (flt _ _); [discriminate|].
  injection Hs as <-. exists ev, q, self, self'. repeat split; assumption.
Qed.

Lemma map_id_insert (store : list (Electron F)) i self self' :
  store !! i = Some self -> id self' = id self ->
  map id (<[i := self']> store) = map id store.
Proof.
  intros Hi Hid. pose proof (lookup_lt_Some _ _ _ Hi) as Hlt.
  apply list_eq. intros j. rewrite !list_lookup_fmap.
  destruct (decide (i = j)) as [<-|Hne].
  - rewrite list_lookup_insert_eq by exact Hlt. rewrite Hi. simpl.
    rewrite Hid. reflexivity.
  - rewrite list_lookup_insert_ne by exact Hne. reflexivity.
Qed.

(** X3: a successful call of [env.step()] pops the event at the head of
    the queue, sets the clock to its time and advances the one electron
    it names.  Every other electron, and so every other entry of the
    position snapshot, is unchanged; the snapshot keeps its length and the
    list its ids; the queue keeps its length and the event counter grows
    by one. *)
Theorem env_step_advances_one_electron (env env' : Environment F) :
  env_step env = Ok env' ->
  exists ev q,
    queue env = ev :: q /\
    now env' = ev_time ev /\
    eid env' = S (eid env) /\
    length (queue env') = length (queue env) /\
    map id (electrons env') = map id (electrons env) /\
    length (get_positions env') = length (get_positions env) /\
    (forall j, j <> ev_process ev ->
       electrons env' !! j = electrons env !! j /\
       get_positions env' !! j = get_positions env !! j).
Proof.
  intros Hs. apply env_step_Ok in Hs as (ev & q & self & self' & Hq & Hi & Hu & ->).
  exists ev, q. simpl. rewrite Hq.
  split; [reflexivity|]. split; [reflexivity|]. split; [reflexivity|].
  split; [apply length_heappush|]. split.
  { apply (map_id_insert _ _ self); [exact Hi|].
    eapply update_self_id. exact Hu. }
  unfold get_positions. simpl. split.
  { rewrite !length_map, length_insert. reflexivity. }
  intros j Hj.
  assert (He : <[ev_process ev := self']> (electrons env) !! j
               = electrons env !! j)
    by (apply list_lookup_insert_ne; congruence).
  split; [exact He|]. rewrite !list_lookup_fmap, He. reflexivity.
Qed.

Lemma env_step_invariants (env env' : Environment F) :
  env_step env = Ok env' ->
  eid env' = S (eid env) /\
  length (queue env') = length (queue env) /\
  map id (electrons env') = map id (electrons env).
Proof.
  intros Hs. apply env_step_Ok in Hs as (ev & q & self & self' & Hq & Hi & Hu & ->).
  simpl. rewrite Hq. split; [reflexivity|]. split; [apply length_heappush|].
  apply (map_id_insert _ _ self); [exact Hi|].
  eapply update_self_id. exact Hu.
Qed.

(** X4: the population is fixed.  Whatever number of calls of
    [env.step()] succeed, the list holds the same ids in the same order,
    the snapshot has the same length, the queue holds the same number of
    events, and the event counter has grown by the number of calls. *)
Theorem run_steps_keeps_population (n : nat) :
  forall env env' : Environment F,
    run_steps n env = Ok env' ->
    map id (electrons env') = map id (electrons env) /\
    length (get_positions env') = length (get_positions env) /\
    length (queue env') = length (queue env) /\
    eid env' = eid env + n.
Proof.
  induction n as [|n IH]; intros env env' Hrun; simpl in Hrun.
  - injection Hrun as <-. repeat split; lia.
  - inv_bind Hrun. apply env_step_invariants in Hr as (He & Hq & Hid).
    apply IH in Hrun as (Hid' & Hlen & Hq' & He').
    unfold get_positions in *. rewrite !length_map in *.
    split; [congruence|]. split.
    + apply (f_equal (@length nat)) in Hid. rewrite !length_map in Hid.
      congruence.
    + split; [congruence|lia].
Qed.

Lemma run_steps_add (a b : nat) :
  forall env : Environment F,
    run_steps (a + b) env = do env' <- run_steps a env; run_steps b env'.
Proof.
  induction a as [|a IH]; intros env; simpl.
  - reflexivity.
  - destruct (env_step env) as [env1|e]; simpl; [apply IH|reflexivity].
Qed.

End Steps.

(** ** Constructed simulations (any scalar type) *)

Section Constructed.

Context {F : Type} {SF : Scalar F} {CF : Constants F} {PN : Population}.
Context {G : Type} {RG : RandomSource G F}.

Lemma truediv_Raise (a b : F) e :
  truediv a b = Raise e -> e <> EmptySchedule.
Proof. unfold truediv. destruct (feq b zero); congruence. Qed.

Lemma bind_Raise {A B : Type} (m : result A) (k : A -> result B) e :
  bind m k = Raise e -> m = Raise e \/ exists a, m = Ok a /\ k a = Raise e.
Proof.
  destruct m as [a|e']; simpl; intros H; [right; eauto|left; congruence].
Qed.

Lemma calculate_forces_body_Raise (self other : Electron F) e :
  calculate_forces_body self other = Raise e -> e <> EmptySchedule.
Proof.
  unfold calculate_forces_body.
  destruct (negb _); [|discriminate]. destruct (flt _ _); [discriminate|].
  intros H.
  repeat (apply bind_Raise in H as [H|(? & _ & H)];
          [eapply truediv_Raise; exact H|]).
  discriminate.
Qed.

Lemma foldM_body_Raise (others : list (Electron F)) :
  forall self e,
    foldM calculate_forces_body self others = Raise e ->
    e <> EmptySchedule.
Proof.
  induction others as [|o others IH]; simpl; intros self e H.
  - discriminate.
  - apply bind_Raise in H as [H|(self' & _ & H)].
    + eapply calculate_forces_body_Raise. exact H.
    + eapply IH. exact H.
Qed.

Lemma update_kinematics_Raise (self : Electron F) e :
  update_kinematics self = Raise e -> e <> EmptySchedule.
Proof.
  unfold update_kinematics. intros H.
  repeat (apply bind_Raise in H as [H|(? & _ & H)];
          [eapply truediv_Raise; exact H|]).
  discriminate.
Qed.

Lemma invoke_Raise m i (store : list (Electron F)) e :
  (forall self l e', m self l = Raise e' -> e' <> EmptySchedule) ->
  invoke m i store = Raise e -> e <> EmptySchedule.
Proof.
  intros Hm Hi. unfold invoke in Hi.
  destruct (store !! i) as [self|]; [|congruence].
  apply bind_Raise in Hi as [Hi|(? & _ & Hi)]; [|discriminate].
  eapply Hm. exact Hi.
Qed.

(** [env.step()] raises [EmptySchedule] on an empty queue only. *)
Lemma env_step_EmptySchedule (env : Environment F) :
  env_step env = Raise EmptySchedule <-> queue env = [].
Proof.
  unfold env_step. destruct (queue env) as [|ev q]; split;
    try reflexivity; try discriminate.
  intros H. exfalso. unfold resume in H.
  apply bind_Raise in H as [H|(store' & _ & H)].
  - unfold update_body in H.
    apply bind_Raise in H as [H|(s1 & _ & H)].
    + eapply (invoke_Raise calculate_forces); [|exact H|reflexivity].
      intros self l e' He. eapply foldM_body_Raise. exact He.
    + apply bind_Raise in H as [H|(s2 & _ & H)].
      * eapply invoke_Raise; [|exact H|reflexivity].
        intros self l e' He. eapply update_kinematics_Raise. exact He.
      * eapply invoke_Raise; [|exact H|reflexivity].
        intros self l e' He. discriminate.
  - unfold timeout in H. destruct (flt TIME_STEP zero); discriminate.
Qed.

Lemma advance_add (a b : nat) :
  forall g : G, advance (a + b) g = advance b (advance a g).
Proof.
  induction a as [|a IH]; intros g; simpl; [reflexivity|apply IH].
Qed.

Lemma ElectronSim_init_fold_electrons (n : nat) :
  forall (a : nat) (env : Environment F) (g : G),
    let st := fold_left add_electron (seq a n) (env, g) in
    electrons (fst st)
    = electrons env
      ++ map (fun j => drawn_electron (a + j) (advance (4 * j) g)) (seq 0 n) /\
    snd st = advance (4 * n) g /\
    eid (fst st) = eid env + n /\
    now (fst st) = now env /\
    length (queue (fst st)) = length (queue env) + n /\
    (Forall (fun ev => ev_priority ev = URGENT /\ ev_time ev = now env +# zero)
       (queue env) ->
     Forall (fun ev => ev_priority ev = URGENT /\ ev_time ev = now env +# zero)
       (queue (fst st))).
Proof.
  induction n as [|n IH]; intros a env g; cbv zeta.
  - simpl. rewrite app_nil_r. repeat split; try lia. tauto.
  - change (fold_left add_electron (seq a (S n)) (env, g))
      with (fold_left add_electron (seq (S a) n) (add_electron (env, g) a)).
    rewrite add_electron_eq.
    match goal with |- context [fold_left _ _ (?e, ?h)] =>
      destruct (IH (S a) e h) as (Hel & Hg & He & Hnow & Hq & Hall) end.
    simpl electrons in *. simpl eid in *. simpl now in *. simpl queue in *.
    rewrite Hel, Hg, He, Hnow, Hq, length_heappush.
    split; [|split; [|split; [lia|split; [reflexivity|split; [lia|]]]]].
    + rewrite <- app_assoc. f_equal.
      change (seq 0 (S n)) with (0 :: seq 1 n). simpl map.
      rewrite Nat.add_0_r. f_equal.
      rewrite <- seq_shift, map_map. apply map_ext. intros j.
      change (S j + (S j + (S j + (S j + 0)))) with (4 * S j).
      change (j + (j + (j + (j + 0)))) with (4 * j).
      replace (4 * S j) with (4 + 4 * j) by lia.
      rewrite (advance_add 4 (4 * j)).
      replace (a + S j) with (S (a + j)) by lia. reflexivity.
    + replace (4 * S n) with (4 + 4 * n) by lia.
      rewrite (advance_add 4 (4 * n)). reflexivity.
    + intros Hold. apply Hall. apply Forall_heappush. split.
      * split; reflexivity.
      * exact Hold.
Qed.

Lemma run_steps_queue_length (n : nat) :
  forall env env' : Environment F,
    run_steps n env = Ok env' -> length (queue env') = length (queue env).
Proof.
  induction n as [|n IH]; intros env env' Hrun; simpl in Hrun.
  - injection Hrun as <-. reflexivity.
  - inv_bind Hrun. apply env_step_invariants in Hr as (_ & Hq & _).
    apply IH in Hrun. congruence.
Qed.

(** X5: [EmptySchedule] is raised exactly when there are no electrons.
    Without electrons the first call of [env.step()] raises it; otherwise,
    after any number of calls that succeeded, the queue of a constructed
    simulation still holds one event per electron and the next call does
    not raise it. *)
Theorem empty_schedule_only_without_electrons (g : G) :
  let sim := fst (ElectronSim_init new_environment g) in
  (NUM_ELECTRONS = 0 ->
   forall n, run_steps (S n) sim = Raise EmptySchedule) /\
  (forall n env',
     run_steps n sim = Ok env' ->
     length (queue env') = NUM_ELECTRONS /\
     (env_step env' = Raise EmptySchedule <-> NUM_ELECTRONS = 0)).
Proof.
  intros sim. split.
  - intros H0 n. unfold sim, ElectronSim_init. rewrite H0. reflexivity.
  - intros n env' Hrun.
    assert (Hlen : length (queue env') = NUM_ELECTRONS).
    { apply run_steps_queue_length in Hrun. rewrite Hrun.
      unfold sim, ElectronSim_init.
      destruct (ElectronSim_init_fold_electrons NUM_ELECTRONS 0
                  new_environment g) as (_ & _ & _ & _ & Hq & _).
      exact Hq. }
    split; [exact Hlen|].
    rewrite env_step_EmptySchedule, <- Hlen.
    destruct (queue env'); simpl; split; (reflexivity || discriminate).
Qed.

(** X6: what [ElectronSim.__init__] builds on a fresh environment.  The
    list holds [NUM_ELECTRONS] electrons; the one at index [i] has id [i],
    zero force accumulators and the position and velocity made from the
    draws [4 i] to [4 i + 3] of the generator, in the order x, y, vx, vy.
    The generator has then delivered [4 * NUM_ELECTRONS] draws, the clock
    is at zero, and the queue holds one [URGENT] event per electron. *)
Theorem ElectronSim_init_builds (g : G) :
  let st := ElectronSim_init new_environment g in
  length (electrons (fst st)) = NUM_ELECTRONS /\
  (forall i, i < NUM_ELECTRONS ->
     electrons (fst st) !! i
     = Some (drawn_electron i (advance (4 * i) g))) /\
  map id (electrons (fst st)) = seq 0 NUM_ELECTRONS /\
  Forall (fun e => force_x e = zero /\ force_y e = zero)
    (electrons (fst st)) /\
  snd st = advance (4 * NUM_ELECTRONS) g /\
  now (fst st) = zero /\
  eid (fst st) = NUM_ELECTRONS /\
  length (queue (fst st)) = NUM_ELECTRONS /\
  Forall (fun ev => ev_priority ev = URGENT /\ ev_time ev = zero +# zero)
    (queue (fst st)).
Proof.
  intros st. unfold st, ElectronSim_init.
  destruct (ElectronSim_init_fold_electrons NUM_ELECTRONS 0 new_environment g)
    as (Hel & Hg & He & Hnow & Hq & Hall).
  simpl in Hel. rewrite Hel.
  split; [rewrite length_map, length_seq; reflexivity|].
  split.
  { intros i Hi. rewrite list_lookup_fmap.
    rewrite (proj2 (lookup_seq _ _ _ _) (conj eq_refl Hi)). reflexivity. }
  split.
  { rewrite map_map. simpl. apply map_id. }
  split.
  { apply Forall_forall. intros e Hin.
    apply list_elem_of_In, in_map_iff in Hin as (j & <- & _).
    split; reflexivity. }
  split; [exact Hg|]. split; [exact Hnow|]. split; [exact He|].
  split; [exact Hq|]. apply Hall. constructor.
Qed.

End Constructed.

(** ** Further properties over the real numbers *)
Module RealMore.

Import RealScalars.
Import RealFacts.
#[local] Open Scope R_scope.

(** *** The wall rule *)

Lemma max_x_pos : 0 < max_x.
Proof. rewrite max_x_value. lra. Qed.

Lemma max_y_pos : 0 < max_y.
Proof. rewrite max_y_value. lra. Qed.

Lemma handle_boundaries_x_left i px py v w fx fy :
  px <= 0 ->
  handle_boundaries_x (mkElectron i px py v w fx fy)
  = mkElectron i 0 py (Rabs v) w fx fy.
Proof.
  intros H. unfold handle_boundaries_x. real_ops. simpl.
  rewrite (proj2 (Rleb_true px 0) H). reflexivity.
Qed.

Lemma handle_boundaries_x_right i px py v w fx fy :
  max_x <= px ->
  handle_boundaries_x (mkElectron i px py v w fx fy)
  = mkElectron i max_x py (- Rabs v) w fx fy.
Proof.
  intros H. pose proof max_x_pos. unfold handle_boundaries_x. real_ops.
  simpl x. simpl vx. simpl id. simpl y. simpl vy. simpl force_x.
  simpl force_y.
  rewrite (proj2 (Rleb_false px 0)) by lra.
  rewrite (proj2 (Rleb_true max_x px) H). reflexivity.
Qed.

Lemma handle_boundaries_y_left i px py v w fx fy :
  py <= 0 ->
  handle_boundaries_y (mkElectron i px py v w fx fy)
  = mkElectron i px 0 v (Rabs w) fx fy.
Proof.
  intros H. unfold handle_boundaries_y. real_ops. simpl.
  rewrite (proj2 (Rleb_true py 0) H). reflexivity.
Qed.

Lemma handle_boundaries_y_right i px py v w fx fy :
  max_y <= py ->
  handle_boundaries_y (mkElectron i px py v w fx fy)
  = mkElectron i px max_y v (- Rabs w) fx fy.
Proof.
  intros H. pose proof max_y_pos. unfold handle_boundaries_y. real_ops.
  simpl x. simpl vx. simpl id. simpl y. simpl vy. simpl force_x.
  simpl force_y.
  rewrite (proj2 (Rleb_false py 0)) by lra.
  rewrite (proj2 (Rleb_true max_y py) H). reflexivity.
Qed.

Lemma handle_boundaries_x_inside i px py v w fx fy :
  0 < px < max_x ->
  handle_boundaries_x (mkElectron i px py v w fx fy)
  = mkElectron i px py v w fx fy.
Proof.
  intros H.
  destruct (handle_boundaries_x_cases (mkElectron i px py v w fx fy))
    as [[H0 _]|[(_ & H1 & _)|[_ E]]]; simpl in *; [lra|lra|exact E].
Qed.

Lemma handle_boundaries_y_inside i px py v w fx fy :
  0 < py < max_y ->
  handle_boundaries_y (mkElectron i px py v w fx fy)
  = mkElectron i px py v w fx fy.
Proof.
  intros H.
  destruct (handle_boundaries_y_cases (mkElectron i px py v w fx fy))
    as [[H0 _]|[(_ & H1 & _)|[_ E]]]; simpl in *; [lra|lra|exact E].
Qed.

Lemma handle_boundaries_x_idem (e : Electron R) :
  handle_boundaries_x (handle_boundaries_x e) = handle_boundaries_x e.
Proof.
  destruct (handle_boundaries_x_cases e) as [[_ ->]|[(_ & _ & ->)|[H E]]].
  - rewrite handle_boundaries_x_left by lra. rewrite Rabs_Rabsolu.
    reflexivity.
  - rewrite handle_boundaries_x_right by lra.
    rewrite Rabs_Ropp, Rabs_Rabsolu. reflexivity.
  - rewrite E. exact E.
Qed.

Lemma handle_boundaries_y_idem (e : Electron R) :
  handle_boundaries_y (handle_boundaries_y e) = handle_boundaries_y e.
Proof.
  destruct (handle_boundaries_y_cases e) as [[_ ->]|[(_ & _ & ->)|[H E]]].
  - rewrite handle_boundaries_y_left by lra. rewrite Rabs_Rabsolu.
    reflexivity.
  - rewrite handle_boundaries_y_right by lra.
    rewrite Rabs_Ropp, Rabs_Rabsolu. reflexivity.
  - rewrite E. exact E.
Qed.

(** The two axes are handled independently. *)
Lemma handle_boundaries_axes_commute (e : Electron R) :
  handle_boundaries_x (handle_boundaries_y e)
  = handle_boundaries_y (handle_boundaries_x e).
Proof.
  destruct e as [i px py v w fx fy].
  destruct (Rle_lt_dec px 0) as [Hx0|Hx0];
    [|destruct (Rle_lt_dec max_x px) as [Hx1|Hx1]];
  (destruct (Rle_lt_dec py 0) as [Hy0|Hy0];
    [|destruct (Rle_lt_dec max_y py) as [Hy1|Hy1]]);
  repeat first
    [ rewrite (handle_boundaries_y_left i _ py) by assumption
    | rewrite (handle_boundaries_y_right i _ py) by assumption
    | rewrite (handle_boundaries_y_inside i _ py) by (split; assumption)
    | rewrite (handle_boundaries_x_left i px) by assumption
    | rewrite (handle_boundaries_x_right i px) by assumption
    | rewrite (handle_boundaries_x_inside i px) by (split; assumption) ];
  reflexivity.
Qed.

(** X7: boundary handling is idempotent: handling an electron a second
    time changes nothing. *)
Theorem handle_boundaries_idempotent (e : Electron R) :
  handle_boundaries (handle_boundaries e) = handle_boundaries e.
Proof.
  unfold handle_boundaries.
  rewrite (handle_boundaries_axes_commute (handle_boundaries_x e)).
  rewrite handle_boundaries_x_idem, handle_boundaries_y_idem. reflexivity.
Qed.

Lemma handle_boundaries_y_keeps_x (e : Electron R) :
  x (handle_boundaries_y e) = x e /\ vx (handle_boundaries_y e) = vx e.
Proof.
  destruct (handle_boundaries_y_cases e) as [[_ ->]|[(_ & _ & ->)|[_ ->]]];
    split; reflexivity.
Qed.

Lemma handle_boundaries_x_keeps_y (e : Electron R) :
  y (handle_boundaries_x e) = y e /\ vy (handle_boundaries_x e) = vy e.
Proof.
  destruct (handle_boundaries_x_cases e) as [[_ ->]|[(_ & _ & ->)|[_ ->]]];
    split; reflexivity.
Qed.

(** X8: the wall rule.  An electron at or beyond a wall is put on that
    wall with its velocity component turned to point into the arena, on
    both axes in the same call; so after boundary handling an electron
    that sits on a wall never moves outward. *)
Theorem walls_turn_velocity_inward (e : Electron R) :
  let e' := handle_boundaries e in
  (x e <= 0 -> x e' = 0 /\ vx e' = Rabs (vx e)) /\
  (max_x <= x e -> x e' = max_x /\ vx e' = - Rabs (vx e)) /\
  (y e <= 0 -> y e' = 0 /\ vy e' = Rabs (vy e)) /\
  (max_y <= y e -> y e' = max_y /\ vy e' = - Rabs (vy e)) /\
  (x e' = 0 -> 0 <= vx e') /\
  (x e' = max_x -> vx e' <= 0) /\
  (y e' = 0 -> 0 <= vy e') /\
  (y e' = max_y -> vy e' <= 0).
Proof.
  intros e'. unfold e', handle_boundaries.
  pose proof max_x_pos as Hmx. pose proof max_y_pos as Hmy.
  destruct (handle_boundaries_y_keeps_x (handle_boundaries_x e)) as [-> ->].
  destruct (handle_boundaries_x_keeps_y e) as [Hy Hvy].
  pose proof (Rabs_pos (vx e)) as Hax. pose proof (Rabs_pos (vy e)) as Hay.
  assert (Hxs :
    (x e <= 0 -> x (handle_boundaries_x e) = 0 /\
                 vx (handle_boundaries_x e) = Rabs (vx e)) /\
    (max_x <= x e -> x (handle_boundaries_x e) = max_x /\
                     vx (handle_boundaries_x e) = - Rabs (vx e)) /\
    (x (handle_boundaries_x e) = 0 -> 0 <= vx (handle_boundaries_x e)) /\
    (x (handle_boundaries_x e) = max_x -> vx (handle_boundaries_x e) <= 0)).
  { destruct (handle_boundaries_x_cases e)
      as [[H ->]|[(H0 & H1 & ->)|[H ->]]]; simpl;
      repeat split; intros; repeat split; simpl in *; lra. }
  assert (Hys : forall d : Electron R,
    (y d <= 0 -> y (handle_boundaries_y d) = 0 /\
                 vy (handle_boundaries_y d) = Rabs (vy d)) /\
    (max_y <= y d -> y (handle_boundaries_y d) = max_y /\
                     vy (handle_boundaries_y d) = - Rabs (vy d)) /\
    (y (handle_boundaries_y d) = 0 -> 0 <= vy (handle_boundaries_y d)) /\
    (y (handle_boundaries_y d) = max_y -> vy (handle_boundaries_y d) <= 0)).
  { intros d. pose proof (Rabs_pos (vy d)).
    destruct (handle_boundaries_y_cases d)
      as [[H0 ->]|[(H0 & H1 & ->)|[H0 ->]]]; simpl;
      repeat split; intros; repeat split; simpl in *; lra. }
  specialize (Hys (handle_boundaries_x e)). rewrite Hy, Hvy in Hys.
  tauto.
Qed.

(** *** The distance floor bounds the force *)

Lemma Rabs_le_Rhypot (a b : R) : Rabs a <= Rhypot a b /\ Rabs b <= Rhypot a b.
Proof.
  pose proof (Rhypot_nonneg a b) as Hh. pose proof (Rhypot_sqr a b) as Hs.
  pose proof (Rabs_pos a) as Ha. pose proof (Rabs_pos b) as Hb.
  assert (Haa : Rabs a * Rabs a = a * a).
  { change (Rsqr (Rabs a) = Rsqr a). symmetry. apply Rsqr_abs. }
  assert (Hbb : Rabs b * Rabs b = b * b).
  { change (Rsqr (Rabs b) = Rsqr b). symmetry. apply Rsqr_abs. }
  split; nra.
Qed.

Lemma coulomb_le_max (r : R) : MIN_DIST <= r -> coulomb r <= coulomb_max.
Proof.
  intros Hr. pose proof MIN_DIST_pos as Hpos.
  unfold coulomb_max, coulomb, Rpow2, Rdiv.
  apply Rmult_le_compat_l; [simpl; nra|].
  apply Rinv_le_contravar; nra.
Qed.

Lemma coulomb_max_pos : 0 < coulomb_max.
Proof. apply coulomb_pos. exact MIN_DIST_pos. Qed.

Lemma coulomb_term_bound (r d : R) :
  MIN_DIST <= r -> Rabs d <= r ->
  Rabs (coulomb r * (d / r)) <= coulomb_max.
Proof.
  intros Hr Hd. pose proof MIN_DIST_pos as Hpos.
  assert (Hr0 : 0 < r) by lra.
  pose proof (coulomb_pos r Hr0) as Hc.
  pose proof (coulomb_le_max r Hr) as Hmax.
  pose proof (Rle_abs d) as Hd1. pose proof (Rle_abs (- d)) as Hd2.
  rewrite Rabs_Ropp in Hd2.
  assert (Hu : d / r * r = d) by (field; lra).
  assert (Hu1 : -1 <= d / r <= 1) by (split; nra).
  apply Rabs_le. split; nra.
Qed.

Lemma calculate_forces_body_bound (acc other acc' : Electron R) :
  calculate_forces_body acc other = Ok acc' ->
  id acc' = id acc /\
  Rabs (force_x acc' - force_x acc)
  <= (if Nat.eqb (id other) (id acc) then 0 else coulomb_max) /\
  Rabs (force_y acc' - force_y acc)
  <= (if Nat.eqb (id other) (id acc) then 0 else coulomb_max).
Proof.
  intros Hb. pose proof coulomb_max_pos as Hcm.
  assert (Hzero : forall v : R, Rabs (v - v) <= 0).
  { intros v. rewrite Rminus_diag, Rabs_R0. lra. }
  assert (Hzero' : forall v : R, Rabs (v - v) <= coulomb_max).
  { intros v. rewrite Rminus_diag, Rabs_R0. lra. }
  destruct (Nat.eq_dec (id other) (id acc)) as [Hid|Hid].
  - rewrite calculate_forces_body_same_id in Hb by exact Hid.
    injection Hb as <-. rewrite (proj2 (Nat.eqb_eq _ _) Hid).
    repeat split; apply Hzero.
  - rewrite (proj2 (Nat.eqb_neq _ _) Hid).
    destruct (Rlt_le_dec (Rhypot (x acc - x other) (y acc - y other))
                MIN_DIST) as [Hr|Hr].
    + rewrite calculate_forces_body_near in Hb by exact Hr.
      injection Hb as <-. repeat split; apply Hzero'.
    + rewrite calculate_forces_body_far in Hb by assumption.
      injection Hb as <-. simpl.
      destruct (Rabs_le_Rhypot (x acc - x other) (y acc - y other))
        as [Hdx Hdy].
      split; [reflexivity|]. split.
      * replace (force_x acc + coulomb _ * _ - force_x acc)
          with (coulomb (Rhypot (x acc - x other) (y acc - y other))
                * ((x acc - x other)
                   / Rhypot (x acc - x other) (y acc - y other))) by ring.
        apply coulomb_term_bound; assumption.
      * replace (force_y acc + coulomb _ * _ - force_y acc)
          with (coulomb (Rhypot (x acc - x other) (y acc - y other))
                * ((y acc - y other)
                   / Rhypot (x acc - x other) (y acc - y other))) by ring.
        apply coulomb_term_bound; assumption.
Qed.

Lemma foldM_body_bound (self : Electron R) (others : list (Electron R)) :
  forall acc acc',
    id acc = id self ->
    foldM calculate_forces_body acc others = Ok acc' ->
    Rabs (force_x acc' - force_x acc)
    <= INR (length (strangers self others)) * coulomb_max /\
    Rabs (force_y acc' - force_y acc)
    <= INR (length (strangers self others)) * coulomb_max.
Proof.
  pose proof coulomb_max_pos as Hcm.
  induction others as [|o others IH]; intros acc acc' Hid Hf; simpl in Hf.
  - injection Hf as <-. simpl. rewrite !Rminus_diag, Rabs_R0. lra.
  - inv_bind Hf. rename r into acc1.
    apply calculate_forces_body_bound in Hr as (Hid1 & Hx1 & Hy1).
    apply IH in Hf as [Hx Hy]; [|congruence].
    rewrite Hid in Hx1, Hy1.
    pose proof (Rabs_triang (force_x acc' - force_x acc1)
                  (force_x acc1 - force_x acc)) as Htx.
    pose proof (Rabs_triang (force_y acc' - force_y acc1)
                  (force_y acc1 - force_y acc)) as Hty.
    replace (force_x acc' - force_x acc1 + (force_x acc1 - force_x acc))
      with (force_x acc' - force_x acc) in Htx by ring.
    replace (force_y acc' - force_y acc1 + (force_y acc1 - force_y acc))
      with (force_y acc' - force_y acc) in Hty by ring.
    unfold strangers. simpl List.filter. fold (strangers self others).
    destruct (Nat.eqb (id o) (id self)); simpl negb; cbv iota.
    + split; lra.
    + change (length (o :: strangers self others))
        with (S (length (strangers self others))).
      rewrite S_INR. split; lra.
Qed.

(** X9: the distance floor bounds the force.  The force computation
    succeeds, and each component of the accumulated force is at most the
    number of electrons with another id times [K * q^2 / 1e-12^2] in
    absolute value. *)
Theorem net_force_is_bounded (self : Electron R) (others : list (Electron R)) :
  exists self',
    calculate_forces self others = Ok self' /\
    Rabs (force_x self')
    <= INR (length (strangers self others)) * coulomb_max /\
    Rabs (force_y self')
    <= INR (length (strangers self others)) * coulomb_max /\
    coulomb_max
    = K_CONST * (ELECTRON_CHARGE * ELECTRON_CHARGE) / (MIN_DIST * MIN_DIST).
Proof.
  destruct (foldM_body_total others (set_force zero zero self))
    as [self' Hf].
  exists self'. split; [exact Hf|].
  destruct (foldM_body_bound self others (set_force zero zero self) self'
              eq_refl Hf) as [Hx Hy].
  simpl in Hx, Hy. rewrite Rminus_0_r in Hx, Hy.
  split; [exact Hx|]. split; [exact Hy|]. reflexivity.
Qed.

(** *** Constructed simulations *)

(** X10: the initial conditions.  When the random source draws from
    [0, 1], every constructed electron lies in the arena and both of its
    velocity components lie in [-V0, V0]. *)
Theorem constructed_electrons_in_range
  (G : Type) (RG : RandomSource G R) (PN : Population) (g : G) :
  (forall g', 0 <= fst (random g') <= 1) ->
  Forall (fun e => in_arena e /\
                   - V0 <= vx e <= V0 /\ - V0 <= vy e <= V0)
    (electrons (fst (ElectronSim_init new_environment g))).
Proof.
  intros Hrange. unfold ElectronSim_init.
  destruct (ElectronSim_init_fold (seq 0 NUM_ELECTRONS) new_environment g
              (fun e => in_arena e /\
                        - V0 <= vx e <= V0 /\ - V0 <= vy e <= V0))
    as (_ & Ha & _).
  - constructor.
  - constructor.
  - intros i g'. unfold in_arena. rewrite max_x_value, max_y_value.
    unfold drawn_electron. simpl.
    pose proof (Hrange g') as H1.
    pose proof (Hrange (snd (random g'))) as H2.
    pose proof (Hrange (snd (random (snd (random g'))))) as H3.
    pose proof (Hrange (snd (random (snd (random (snd (random g'))))))) as H4.
    repeat split; nra.
  - exact Ha.
Qed.

Lemma constructed_runnable
  (G : Type) (RG : RandomSource G R) (PN : Population) (g : G) :
  (0 < NUM_ELECTRONS)%nat ->
  (forall g', 0 <= fst (random g') <= 1) ->
  runnable (fst (ElectronSim_init new_environment g)) /\
  Forall in_arena (electrons (fst (ElectronSim_init new_environment g))) /\
  length (electrons (fst (ElectronSim_init new_environment g)))
  = NUM_ELECTRONS.
Proof.
  intros HN Hrange. unfold ElectronSim_init.
  destruct (ElectronSim_init_fold (seq 0 NUM_ELECTRONS) new_environment g
              in_arena) as (Hv & Ha & Hlen & Hq).
  - constructor.
  - constructor.
  - intros i g'. unfold in_arena. rewrite max_x_value, max_y_value.
    unfold drawn_electron. simpl.
    pose proof (Hrange g') as H1.
    pose proof (Hrange (snd (random g'))) as H2.
    lra.
  - split; [split; [|exact Hv]|split; [exact Ha|]].
    + apply Hq. destruct NUM_ELECTRONS; [lia|discriminate].
    + rewrite Hlen, length_seq. reflexivity.
Qed.

Lemma run_steps_total (n : nat) :
  forall env : Environment R,
    runnable env ->
    exists env',
      run_steps n env = Ok env' /\
      runnable env' /\
      length (electrons env') = length (electrons env) /\
      (Forall in_arena (electrons env) -> Forall in_arena (electrons env')).
Proof.
  induction n as [|n IH]; intros env Hrun.
  - exists env. split; [reflexivity|]. split; [exact Hrun|].
    split; [reflexivity|]. intros H; exact H.
  - destruct (env_step_runnable env Hrun)
      as (ev & q & self & self1 & Hq & Hi & H1 & Hs & Hrun').
    destruct (IH _ Hrun') as (env' & Hn & Hr' & Hlen & Ha).
    exists env'. simpl run_steps. rewrite Hs. simpl bind.
    split; [exact Hn|]. split; [exact Hr'|]. split.
    + rewrite Hlen. simpl. apply length_insert.
    + intros Harena. apply Ha. simpl.
      apply Forall_insert; [exact Harena|].
      apply handle_boundaries_in_arena.
Qed.

(** *** Time steps *)

Lemma clock_always_advances (t : R) : clock_advances t = true.
Proof.
  unfold clock_advances. real_ops.
  assert (Hdt : 0 < TIME_STEP) by (simpl; lra).
  rewrite (proj2 (Reqb_false (t + TIME_STEP) t)) by lra.
  rewrite (proj2 (Rltb_false (t + TIME_STEP) t)) by lra.
  rewrite (proj2 (Reqb_true (t + TIME_STEP) (t + TIME_STEP)) eq_refl).
  reflexivity.
Qed.

Lemma update_body_total (i : nat) (store : list (Electron R)) :
  (i < length store)%nat ->
  exists store', update_body i store = Ok store' /\
                 length store' = length store.
Proof.
  intros Hi. destruct (lookup_lt_is_Some_2 _ _ Hi) as [self Hs].
  destruct (update_self_total self store) as (self1 & _ & Hu).
  rewrite (update_body_self _ _ _ Hs), Hu. simpl.
  eexists. split; [reflexivity|apply length_insert].
Qed.

Lemma sweep_total (m : nat) :
  forall k (store : list (Electron R)),
    (k + m <= length store)%nat ->
    exists store', sweep m k store = Ok store' /\
                   length store' = length store.
Proof.
  induction m as [|m IH]; intros k store Hk; simpl.
  - exists store. split; reflexivity.
  - destruct (update_body_total k store) as (store1 & -> & Hlen); [lia|].
    simpl. destruct (IH (S k) store1) as (store' & Hs & Hlen'); [lia|].
    exists store'. split; [exact Hs|congruence].
Qed.

(** One time step from the start of a time step. *)
Lemma time_step_round (env : Environment R) (t : R) (p e0 : nat) :
  queue env = pending t p e0 0 (length (electrons env)) ->
  exists env',
    run_steps (length (electrons env)) env = Ok env' /\
    sweep (length (electrons env)) 0 (electrons env) = Ok (electrons env') /\
    length (electrons env') = length (electrons env) /\
    queue env' = pending (t + TIME_STEP) NORMAL (eid env) 0
                   (length (electrons env')) /\
    ((0 < length (electrons env))%nat -> now env' = t).
Proof.
  intros Hq. destruct env as [now0 q e store]. simpl in *. subst q.
  assert (Hdt : flt TIME_STEP zero = false).
  { real_ops. apply Rltb_false. simpl. lra. }
  pose proof (run_steps_in_round t p e0 e (length store)
                (clock_always_advances t) Hdt (length store) 0%nat now0 store
                (Nat.add_0_l _)) as Hround.
  replace (length store - 0)%nat with (length store) in Hround by lia.
  replace (e + 0)%nat with e in Hround by lia.
  change (pending (fadd t TIME_STEP) NORMAL e 0 0) with (@nil (Event R))
    in Hround.
  rewrite app_nil_r in Hround.
  destruct (sweep_total (length store) 0 store) as (store' & Hs & Hlen);
    [lia|].
  rewrite Hs in Hround. simpl in Hround.
  eexists. split; [exact Hround|]. simpl.
  split; [exact Hs|]. split; [exact Hlen|]. split.
  - rewrite Hlen. reflexivity.
  - intros Hpos. destruct (length store); [lia|reflexivity].
Qed.

Lemma time_steps_from_round (k : nat) :
  forall (env : Environment R) (t : R) (p e0 : nat),
    queue env = pending t p e0 0 (length (electrons env)) ->
    exists env' p' e',
      run_steps (k * length (electrons env)) env = Ok env' /\
      time_steps k (electrons env) = Ok (electrons env') /\
      length (electrons env') = length (electrons env) /\
      queue env' = pending (t + INR k * TIME_STEP) p' e' 0
                     (length (electrons env')) /\
      ((0 < k)%nat -> (0 < length (electrons env))%nat ->
       now env' = t + INR (k - 1) * TIME_STEP).
Proof.
  induction k as [|k IH]; intros env t p e0 Hq.
  - exists env, p, e0. simpl. split; [reflexivity|]. split; [reflexivity|].
    split; [reflexivity|]. split; [|lia].
    rewrite Hq. f_equal. lra.
  - destruct (time_step_round env t p e0 Hq)
      as (env1 & Hrun1 & Hs1 & Hlen1 & Hq1 & Hnow1).
    destruct (IH env1 (t + TIME_STEP) NORMAL (eid env) Hq1)
      as (env' & p' & e' & Hrun & Hts & Hlen & Hq' & Hnow).
    exists env', p', e'.
    change (S k * length (electrons env))%nat
      with (length (electrons env) + k * length (electrons env))%nat.
    rewrite run_steps_add, Hrun1. simpl bind. rewrite <- Hlen1 at 1.
    split; [exact Hrun|]. simpl time_steps. rewrite Hs1. simpl bind.
    split; [exact Hts|]. split; [congruence|]. split.
    + rewrite Hq'. f_equal. rewrite S_INR. lra.
    + intros _ Hpos. destruct k as [|k].
      * simpl. inversion Hrun. subst env'. rewrite Hnow1 by exact Hpos. lra.
      * rewrite Hnow by lia.
        replace (S (S k) - 1)%nat with (S k) by lia.
        replace (S k - 1)%nat with k by lia. rewrite S_INR. lra.
Qed.

Lemma constructed_time_steps
  (G : Type) (RG : RandomSource G R) (PN : Population) (g : G) (k : nat) :
  let sim := fst (ElectronSim_init new_environment g) in
  exists env' p' e',
    run_steps (k * NUM_ELECTRONS) sim = Ok env' /\
    time_steps k (electrons sim) = Ok (electrons env') /\
    length (electrons env') = NUM_ELECTRONS /\
    queue env' = pending (INR k * TIME_STEP) p' e' 0 NUM_ELECTRONS /\
    ((0 < k)%nat -> (0 < NUM_ELECTRONS)%nat ->
     now env' = INR (k - 1) * TIME_STEP).
Proof.
  intros sim.
  assert (Hrefl : feq (fadd zero zero) (fadd zero zero) = true).
  { real_ops. apply Reqb_true. reflexivity. }
  destruct (ElectronSim_init_fold_queue (fadd zero zero)
              (seq 0 NUM_ELECTRONS) Hrefl new_environment g)
    as (Hq & _ & Hid); try reflexivity.
  fold (ElectronSim_init new_environment g) in Hq, Hid. fold sim in Hq, Hid.
  assert (Hlen : length (electrons sim) = NUM_ELECTRONS).
  { apply (f_equal (@length nat)) in Hid. simpl in Hid.
    rewrite length_map, length_seq in Hid. exact Hid. }
  destruct (time_steps_from_round k sim (fadd zero zero) URGENT 0%nat Hq)
    as (env' & p' & e' & Hrun & Hts & Hlen' & Hq' & Hnow).
  exists env', p', e'. rewrite Hlen in *.
  split; [exact Hrun|]. split; [exact Hts|]. split; [congruence|]. split.
  - rewrite Hq', Hlen'. f_equal. real_ops. lra.
  - intros Hk HN. rewrite Hnow by assumption. real_ops. lra.
Qed.

(** X11: time steps.  In a constructed simulation, [k] times
    [NUM_ELECTRONS] calls of [env.step()] never raise and amount to [k]
    sweeps over the list, each advancing every electron once in index
    order; afterwards every electron has one event pending for the
    instant [k * TIME_STEP], in index order, and the clock stands at
    [(k - 1) * TIME_STEP]. *)
Theorem steps_group_into_time_steps
  (G : Type) (RG : RandomSource G R) (PN : Population) (g : G) (k : nat) :
  let sim := fst (ElectronSim_init new_environment g) in
  exists env' p' e',
    run_steps (k * NUM_ELECTRONS) sim = Ok env' /\
    time_steps k (electrons sim) = Ok (electrons env') /\
    length (electrons env') = NUM_ELECTRONS /\
    queue env' = pending (INR k * TIME_STEP) p' e' 0 NUM_ELECTRONS /\
    ((0 < k)%nat -> (0 < NUM_ELECTRONS)%nat ->
     now env' = INR (k - 1) * TIME_STEP).
Proof. exact (constructed_time_steps G RG PN g k). Qed.

End RealMore.

(** * The coincident-particle policy within a time step *)

Module RealPairs.

Import RealScalars.
Import RealFacts.
Import RealMore.
Import RealExample.
#[local] Open Scope R_scope.

(** The accumulators an electron holds after its iteration of [update]
    are those of its force computation. *)
Lemma update_self_forces (self self' : Electron R) (store : list (Electron R)) :
  update_self self store = Ok self' ->
  forces_of (Ok self') = forces_of (calculate_forces self store).
Proof.
  intros H. destruct (update_self_total self store) as (self1 & Hc & Hu).
  rewrite Hu in H. injection H as <-. rewrite Hc.
  unfold forces_of, bind.
  destruct (handle_boundaries_speed (euler self1)) as (_ & _ & -> & ->).
  reflexivity.
Qed.

(** Leaving out a listed neighbour that is closer than the floor does not
    change the force computation. *)
Lemma calculate_forces_delete_near
  (self other : Electron R) (others : list (Electron R)) (j : nat) :
  others !! j = Some other ->
  Rhypot (x self - x other) (y self - y other) < MIN_DIST ->
  calculate_forces self others = calculate_forces self (delete j others).
Proof.
  intros Hj Hr.
  rewrite <- (take_drop_middle others j other Hj) at 1.
  rewrite delete_take_drop.
  apply (proj1 (proj2 (proj2 near_pairs_add_nothing))). exact Hr.
Qed.

(** C5: the force computation never raises [ZeroDivisionError], and a
    listed neighbour closer than the floor to the computing electron adds
    nothing to its accumulators, in either direction; two electrons at the
    same coordinates leave each other's accumulators at zero.  Within a
    time step this holds for the positions each computation reads: of a
    pair that is closer than the floor at the start of the step, the
    electron processed first ends the step with the force computed without
    the other, and of two electrons at the same coordinates the first ends
    the step with zero force while the second holds the force exerted from
    the first one's new position. *)
Theorem close_pairs_are_skipped_as_read :
  (forall self others, exists self', calculate_forces self others = Ok self') /\
  (forall a b,
     Rhypot (x a - x b) (y a - y b) < MIN_DIST ->
     calculate_forces_body a b = Ok a /\ calculate_forces_body b a = Ok b) /\
  (forall self other l1 l2,
     Rhypot (x self - x other) (y self - y other) < MIN_DIST ->
     calculate_forces self (l1 ++ other :: l2)
     = calculate_forces self (l1 ++ l2)) /\
  (forall a b,
     x a = x b -> y a = y b ->
     calculate_forces a [a; b] = Ok (set_force 0 0 a) /\
     calculate_forces b [a; b] = Ok (set_force 0 0 b)) /\
  (forall env t p e0,
     queue env = pending t p e0 0 (length (electrons env)) ->
     exists env',
       run_steps (length (electrons env)) env = Ok env' /\
       forall i j a b a',
         (i < j)%nat ->
         electrons env !! i = Some a -> electrons env !! j = Some b ->
         Rhypot (x a - x b) (y a - y b) < MIN_DIST ->
         electrons env' !! i = Some a' ->
         forces_of (Ok a')
         = forces_of
             (calculate_forces a
                (delete j (take i (electrons env') ++ drop i (electrons env))))) /\
  (forall env t p e0 a b,
     queue env = pending t p e0 0 2 ->
     electrons env = [a; b] -> x a = x b -> y a = y b ->
     exists env' a' b',
       run_steps 2 env = Ok env' /\
       electrons env' = [a'; b'] /\
       force_x a' = 0 /\ force_y a' = 0 /\
       forces_of (Ok b') = forces_of (calculate_forces b [a'; b])).
Proof.
  destruct near_pairs_add_nothing as (Htotal & Hnear & Hskip & Hsame).
  split; [exact Htotal|]. split; [exact Hnear|]. split; [exact Hskip|].
  split; [exact Hsame|]. split.
  - intros env t p e0 Hq.
    destruct (time_step_round env t p e0 Hq) as (env' & Hrun & Hsw & Hlen & _).
    exists env'. split; [exact Hrun|].
    intros i j a b a' Hij Ha Hb Hr Ha'.
    apply sweep_Ok in Hsw as (_ & _ & _ & Hmid).
    pose proof (lookup_lt_Some _ _ _ Ha) as Hi.
    destruct (Hmid i a) as (a2 & Hu & Hi'); [lia|exact Ha|].
    rewrite Ha' in Hi'. injection Hi' as <-.
    rewrite (update_self_forces _ _ _ Hu). f_equal.
    apply (calculate_forces_delete_near a b); [|exact Hr].
    rewrite lookup_app_r by (rewrite length_take; lia).
    rewrite length_take, Nat.min_l by lia.
    rewrite lookup_drop. replace (i + (j - i))%nat with j by lia. exact Hb.
  - intros env t p e0 a b Hq He Hx Hy.
    destruct env as [now0 q e store]. simpl in Hq, He. subst q store.
    destruct (time_step_round (mkEnvironment now0 (pending t p e0 0 2) e [a; b])
                t p e0 eq_refl) as (env' & Hrun & Hsw & Hlen & _).
    cbn [electrons length] in Hrun, Hsw, Hlen.
    apply sweep_Ok in Hsw as (_ & _ & _ & Hmid).
    destruct (Hmid 0%nat a) as (a2 & Hua & Ha2); [lia|reflexivity|].
    destruct (Hmid 1%nat b) as (b2 & Hub & Hb2); [lia|reflexivity|].
    destruct (electrons env') as [|u [|v [|w rest]]] eqn:Hstore;
      try discriminate Hlen.
    cbn in Ha2, Hb2, Hua, Hub.
    injection Ha2 as ->. injection Hb2 as ->.
    exists env', a2, b2. split; [exact Hrun|]. split; [exact Hstore|].
    apply update_self_forces in Hua, Hub.
    rewrite (proj1 (Hsame a b Hx Hy)) in Hua.
    unfold forces_of, bind in Hua. simpl in Hua.
    split; [congruence|]. split; [congruence|]. exact Hub.
Qed.

(** [electron_c] and [electron_d] coincide at the start of the time step
    of [pair_env]. *)
Lemma close_pairs_are_skipped_as_read_witness :
  (Rhypot (x electron_c - x electron_d) (y electron_c - y electron_d)
   < MIN_DIST /\
   calculate_forces_body electron_c electron_d = Ok electron_c /\
   calculate_forces_body electron_d electron_c = Ok electron_d) /\
  queue pair_env = pending 0 URGENT 0 0 2 /\
  electrons pair_env = [electron_c; electron_d] /\
  x electron_c = x electron_d /\ y electron_c = y electron_d /\
  exists env' a' b',
    run_steps 2 pair_env = Ok env' /\
    electrons env' = [a'; b'] /\
    force_x a' = 0 /\ force_y a' = 0 /\
    forces_of (Ok b') = forces_of (calculate_forces electron_d [a'; electron_d]).
Proof.
  assert (H : Rhypot (x electron_c - x electron_d)
                (y electron_c - y electron_d) < MIN_DIST).
  { simpl x. simpl y. rewrite !Rminus_diag, Rhypot_zero.
    exact MIN_DIST_pos. }
  split.
  { split; [exact H|].
    exact (proj1 (proj2 close_pairs_are_skipped_as_read)
             electron_c electron_d H). }
  repeat (split; [reflexivity|]).
  exact (proj2 (proj2 (proj2 (proj2 (proj2 close_pairs_are_skipped_as_read))))
           pair_env 0 URGENT 0%nat electron_c electron_d
           eq_refl eq_refl eq_refl eq_refl).
Defined.

End RealPairs.

(** ** Rendering and the driver loop (any scalar type) *)

Section Driver.

Context {F : Type} {SF : Scalar F} {CF : Constants F} {TI : ToInt F}.

Lemma draw_circles_Some (positions : list (F * F)) :
  forall circles,
    draw_circles positions = Some circles ->
    length circles = length positions /\
    (forall i px py, positions !! i = Some (px, py) ->
       exists cx cy, to_pixel px = Some cx /\ to_pixel py = Some cy /\
                     circles !! i = Some (cx, cy)).
Proof.
  induction positions as [|[qx qy] rest IH]; intros circles H; simpl in H.
  - injection H as <-. split; [reflexivity|]. intros i px py Hi.
    discriminate.
  - destruct (to_pixel qx) as [cx|] eqn:Hx; [|discriminate].
    destruct (to_pixel qy) as [cy|] eqn:Hy; [|discriminate].
    destruct (draw_circles rest) as [cs|]; [|discriminate].
    injection H as <-. destruct (IH cs eq_refl) as [Hlen Hat].
    split; [simpl; rewrite Hlen; reflexivity|].
    intros [|i] px py Hi; simpl in Hi.
    + injection Hi as <- <-. exists cx, cy. repeat split; assumption.
    + apply Hat. exact Hi.
Qed.

Lemma draw_circles_None (positions : list (F * F)) :
  draw_circles positions = None ->
  exists i px py, positions !! i = Some (px, py) /\
                  (to_pixel px = None \/ to_pixel py = None).
Proof.
  induction positions as [|[qx qy] rest IH]; intros H; simpl in H.
  - discriminate.
  - destruct (to_pixel qx) as [cx|] eqn:Hx;
      [|exists 0, qx, qy; split; [reflexivity|left; exact Hx]].
    destruct (to_pixel qy) as [cy|] eqn:Hy;
      [|exists 0, qx, qy; split; [reflexivity|right; exact Hy]].
    destruct (draw_circles rest) as [cs|]; [discriminate|].
    destruct (IH eq_refl) as (i & px & py & Hi & Hp).
    exists (S i), px, py. split; assumption.
Qed.

(** X12: [draw] issues one circle per electron, in the order of the list,
    centred at the truncated quotients of its coordinates by [SCALE]; it
    fails only when one of these conversions does. *)
Theorem draw_one_circle_per_electron (sim : Environment F) :
  match draw sim with
  | Some circles =>
      length circles = length (electrons sim) /\
      (forall i e, electrons sim !! i = Some e ->
         exists cx cy, to_pixel (x e) = Some cx /\ to_pixel (y e) = Some cy /\
                       circles !! i = Some (cx, cy))
  | None =>
      exists e, In e (electrons sim) /\
                (to_pixel (x e) = None \/ to_pixel (y e) = None)
  end.
Proof.
  unfold draw, get_positions.
  destruct (draw_circles (map (fun e => (x e, y e)) (electrons sim)))
    as [circles|] eqn:Hd.
  - apply draw_circles_Some in Hd as [Hlen Hat].
    rewrite length_map in Hlen. split; [exact Hlen|].
    intros i e Hi. apply Hat. rewrite list_lookup_fmap, Hi. reflexivity.
  - apply draw_circles_None in Hd as (i & px & py & Hi & Hp).
    rewrite list_lookup_fmap in Hi.
    destruct (electrons sim !! i) as [e|] eqn:He; [|discriminate].
    simpl in Hi. injection Hi as <- <-. exists e. split; [|exact Hp].
    apply list_elem_of_In. eapply list_elem_of_lookup_2. exact He.
Qed.

Lemma main_loop_cons batch rest (env : Environment F) :
  main_loop (batch :: rest) env
  = match run_steps 10 env with
    | Raise e => ([], StepRaised e)
    | Ok env' =>
        match draw env' with
        | None => ([], DrawRaised)
        | Some frame =>
            if has_quit batch then ([frame], Exited env')
            else (frame :: fst (main_loop rest env'),
                  snd (main_loop rest env'))
        end
    end.
Proof.
  cbn [main_loop]. destruct (run_steps 10 env) as [env'|e]; [|reflexivity].
  destruct (draw env'); [|reflexivity].
  destruct (has_quit batch); [reflexivity|].
  destruct (main_loop rest env'). reflexivity.
Qed.

(** Every frame rendered shows the state after ten more calls of
    [env.step()]. *)
Lemma main_loop_frame (batches : list (list pygame_event)) :
  forall (env : Environment F) j frame,
    fst (main_loop batches env) !! j = Some frame ->
    exists env',
      run_steps (10 * S j) env = Ok env' /\ draw env' = Some frame.
Proof.
  induction batches as [|batch rest IH]; intros env j frame Hj.
  - discriminate.
  - rewrite main_loop_cons in Hj.
    destruct (run_steps 10 env) as [env1|e] eqn:H10; [|discriminate].
    destruct (draw env1) as [frame1|] eqn:Hd; [|discriminate].
    assert (Hhead : j = 0 -> frame = frame1 ->
              exists env', run_steps (10 * S j) env = Ok env' /\
                           draw env' = Some frame).
    { intros -> ->. exists env1. split; [exact H10|exact Hd]. }
    destruct (has_quit batch).
    + destruct j as [|j]; [|discriminate]. simpl in Hj.
      injection Hj as <-. apply Hhead; reflexivity.
    + destruct j as [|j]; simpl in Hj.
      * injection Hj as <-. apply Hhead; reflexivity.
      * destruct (IH env1 j frame Hj) as (env' & Hrun & Hdraw).
        exists env'. split; [|exact Hdraw].
        replace (10 * S (S j)) with (10 + 10 * S j) by lia.
        rewrite run_steps_add, H10. exact Hrun.
Qed.

Lemma main_loop_status (batches : list (list pygame_event)) :
  forall env : Environment F,
    let frames := fst (main_loop batches env) in
    match snd (main_loop batches env) with
    | Exited env' =>
        exists pre batch post,
          batches = pre ++ batch :: post /\
          Forall (fun b => has_quit b = false) pre /\
          has_quit batch = true /\
          length frames = S (length pre) /\
          run_steps (10 * S (length pre)) env = Ok env'
    | Running env' =>
        Forall (fun b => has_quit b = false) batches /\
        length frames = length batches /\
        run_steps (10 * length batches) env = Ok env'
    | StepRaised e =>
        length frames < length batches /\
        run_steps (10 * S (length frames)) env = Raise e
    | DrawRaised =>
        length frames < length batches /\
        exists env', run_steps (10 * S (length frames)) env = Ok env' /\
                     draw env' = None
    end.
Proof.
  induction batches as [|batch rest IH]; intros env; cbv zeta.
  - simpl. split; [constructor|]. split; reflexivity.
  - rewrite main_loop_cons.
    destruct (run_steps 10 env) as [env1|e] eqn:H10.
    2:{ simpl. split; [lia|exact H10]. }
    destruct (draw env1) as [frame1|] eqn:Hd.
    2:{ simpl. split; [lia|]. exists env1. split; [exact H10|exact Hd]. }
    destruct (has_quit batch) eqn:Hquit.
    + simpl. exists [], batch, rest. repeat split; try reflexivity.
      * constructor.
      * exact Hquit.
      * exact H10.
    + specialize (IH env1). cbv zeta in IH. simpl fst. simpl snd.
      assert (Hadd : forall n, run_steps (10 * S (S n)) env
                               = run_steps (10 * S n) env1).
      { intros n. replace (10 * S (S n)) with (10 + 10 * S n) by lia.
        rewrite run_steps_add, H10. reflexivity. }
      destruct (snd (main_loop rest env1)) as [env'|env'|e|].
      * destruct IH as (pre & b & post & -> & Hpre & Hb & Hlen & Hrun).
        exists (batch :: pre), b, post. simpl length.
        split; [reflexivity|]. split; [constructor; assumption|].
        split; [exact Hb|]. split; [rewrite Hlen; reflexivity|].
        rewrite Hadd. exact Hrun.
      * destruct IH as (Hall & Hlen & Hrun). simpl length.
        split; [constructor; assumption|]. split; [rewrite Hlen; reflexivity|].
        destruct rest as [|b rest'].
        -- simpl in Hrun. injection Hrun as <-. exact H10.
        -- simpl length in *. rewrite Hadd. exact Hrun.
      * destruct IH as (Hlt & Hrun). simpl length.
        split; [lia|]. rewrite Hadd. exact Hrun.
      * destruct IH as (Hlt & env' & Hrun & Hdraw). simpl length.
        split; [lia|]. exists env'. rewrite Hadd.
        split; [exact Hrun|exact Hdraw].
Qed.

(** X13: the driver loop.  Each iteration makes ten calls of [env.step()]
    and renders one frame, so frame [j] shows the state after
    [10 * (j + 1)] calls.  The loop is left after the first iteration
    whose event batch holds a [QUIT]; that iteration still steps and
    renders, and later batches are never polled.  Without a [QUIT] it
    renders one frame per batch and keeps running; an exception in
    [env.step()] or in [draw] ends it after the frames rendered so far. *)
Theorem main_loop_renders_until_quit
  (batches : list (list pygame_event)) (env : Environment F) :
  let frames := fst (main_loop batches env) in
  (forall j frame, frames !! j = Some frame ->
     exists env',
       run_steps (10 * S j) env = Ok env' /\ draw env' = Some frame) /\
  match snd (main_loop batches env) with
  | Exited env' =>
      exists pre batch post,
        batches = pre ++ batch :: post /\
        Forall (fun b => has_quit b = false) pre /\
        has_quit batch = true /\
        length frames = S (length pre) /\
        run_steps (10 * S (length pre)) env = Ok env'
  | Running env' =>
      Forall (fun b => has_quit b = false) batches /\
      length frames = length batches /\
      run_steps (10 * length batches) env = Ok env'
  | StepRaised e =>
      length frames < length batches /\
      run_steps (10 * S (length frames)) env = Raise e
  | DrawRaised =>
      length frames < length batches /\
      exists env', run_steps (10 * S (length frames)) env = Ok env' /\
                   draw env' = None
  end.
Proof.
  intros frames. split.
  - apply main_loop_frame.
  - apply main_loop_status.
Qed.

End Driver.

(** ** Rendering and the driver loop over the real numbers *)
Module RealDriver.

Import RealScalars.
Import RealFacts.
Import RealMore.
#[local] Open Scope R_scope.

Lemma to_pixel_real (v : R) : to_pixel v = Some (Rtrunc (v / SCALE)).
Proof.
  unfold to_pixel. rewrite truediv_nonzero by (simpl; lra). reflexivity.
Qed.

Lemma Rtrunc_bounds (r : R) (n : Z) :
  0 <= r <= IZR n -> (0 <= Rtrunc r <= n)%Z.
Proof.
  intros [H0 Hn]. unfold Rtrunc. destruct (Rle_dec 0 r) as [_|Hneg]; [|lra].
  destruct (base_Int_part r) as [Hle Hgt]. split.
  - assert (H : (-1 < Int_part r)%Z) by (apply lt_IZR; simpl; lra). lia.
  - apply le_IZR. lra.
Qed.

Lemma pixel_in_window (e : Electron R) :
  in_arena e ->
  in_window (Rtrunc (x e / SCALE), Rtrunc (y e / SCALE)).
Proof.
  unfold in_arena. rewrite max_x_value, max_y_value. intros [Hx Hy].
  split; simpl fst; simpl snd; apply Rtrunc_bounds; simpl; lra.
Qed.

Lemma draw_circles_in_window (store : list (Electron R)) :
  Forall in_arena store ->
  draw_circles (map (fun e => (x e, y e)) store)
  = Some (map (fun e => (Rtrunc (x e / SCALE), Rtrunc (y e / SCALE))) store).
Proof.
  induction 1 as [|e store He _ IH]; simpl.
  - reflexivity.
  - rewrite !to_pixel_real, IH. reflexivity.
Qed.

(** X14: the circles stay in the window.  For electrons inside the arena
    [draw] succeeds, and every circle centre it issues lies within
    [0, WIDTH] x [0, HEIGHT] pixels; the centre of the electron at index
    [i] is its position divided by [SCALE], truncated. *)
Theorem draw_stays_in_window (sim : Environment R) :
  Forall in_arena (electrons sim) ->
  exists circles,
    draw sim = Some circles /\
    length circles = length (electrons sim) /\
    Forall in_window circles /\
    (forall i e, electrons sim !! i = Some e ->
       circles !! i = Some (Rtrunc (x e / SCALE), Rtrunc (y e / SCALE))).
Proof.
  intros Ha. eexists. split; [apply draw_circles_in_window; exact Ha|].
  split; [apply length_map|]. split.
  - apply Forall_forall. intros c Hc.
    apply list_elem_of_In, in_map_iff in Hc as (e & <- & He).
    apply pixel_in_window.
    rewrite Forall_forall in Ha. apply Ha. apply list_elem_of_In. exact He.
  - intros i e Hi. rewrite list_lookup_fmap, Hi. reflexivity.
Qed.

Lemma draw_frame (env : Environment R) :
  Forall in_arena (electrons env) ->
  exists frame,
    draw env = Some frame /\
    length frame = length (electrons env) /\ Forall in_window frame.
Proof.
  intros Ha. eexists. split; [apply draw_circles_in_window; exact Ha|].
  split; [apply length_map|].
  apply Forall_forall. intros c Hc.
  apply list_elem_of_In, in_map_iff in Hc as (e & <- & He).
  apply pixel_in_window.
  rewrite Forall_forall in Ha. apply Ha. apply list_elem_of_In. exact He.
Qed.

Lemma main_loop_runs (batches : list (list pygame_event)) :
  forall env : Environment R,
    runnable env -> Forall in_arena (electrons env) ->
    Forall (fun frame => length frame = length (electrons env) /\
                         Forall in_window frame)
      (fst (main_loop batches env)) /\
    match snd (main_loop batches env) with
    | Exited _ => Exists (fun b => has_quit b = true) batches
    | Running _ => Forall (fun b => has_quit b = false) batches
    | StepRaised _ => False
    | DrawRaised => False
    end.
Proof.
  induction batches as [|batch rest IH]; intros env Hrun Ha.
  - simpl. split; constructor.
  - rewrite main_loop_cons.
    destruct (run_steps_total 10 env Hrun) as (env1 & -> & Hrun1 & Hlen & Ha1).
    specialize (Ha1 Ha).
    destruct (draw_frame env1 Ha1) as (frame & -> & Hfl & Hfw).
    destruct (has_quit batch) eqn:Hq.
    + simpl. split.
      * constructor; [|constructor]. split; [congruence|exact Hfw].
      * constructor. exact Hq.
    + destruct (IH env1 Hrun1 Ha1) as [Hframes Hstatus].
      simpl fst. simpl snd. split.
      * constructor; [split; [congruence|exact Hfw]|].
        rewrite <- Hlen. exact Hframes.
      * destruct (snd (main_loop rest env1)); try contradiction.
        -- apply Exists_cons_tl. exact Hstatus.
        -- constructor; assumption.
Qed.

(** X15: the program runs until it is closed.  On a simulation
    constructed with at least one electron from draws in [0, 1], the
    driver loop never ends in an exception: it is left exactly when some
    event batch holds a [QUIT], and every frame it renders has one circle
    per electron, all centred inside the window. *)
Theorem main_loop_never_raises
  (G : Type) (RG : RandomSource G R) (PN : Population) (g : G)
  (batches : list (list pygame_event)) :
  (0 < NUM_ELECTRONS)%nat ->
  (forall g', 0 <= fst (random g') <= 1) ->
  let sim := fst (ElectronSim_init new_environment g) in
  Forall (fun frame => length frame = NUM_ELECTRONS /\
                       Forall in_window frame)
    (fst (main_loop batches sim)) /\
  match snd (main_loop batches sim) with
  | Exited _ => Exists (fun b => has_quit b = true) batches
  | Running _ => Forall (fun b => has_quit b = false) batches
  | StepRaised _ => False
  | DrawRaised => False
  end.
Proof.
  intros HN Hrange sim.
  destruct (constructed_runnable G RG PN g HN Hrange) as (Hrun & Ha & Hlen).
  fold sim in Hrun, Ha, Hlen.
  destruct (main_loop_runs batches sim Hrun Ha) as [Hframes Hstatus].
  rewrite Hlen in Hframes. split; assumption.
Qed.

(** X16: with the ten electrons of [main.py], a frame is a time step.
    The ten calls of [env.step()] of an iteration advance each of the ten
    electrons once, in index order, so frame [j] shows the list after
    [j + 1] sweeps. *)
Theorem frames_are_time_steps
  (G : Type) (RG : RandomSource G R) (g : G)
  (batches : list (list pygame_event)) (j : nat) :
  let sim := fst (ElectronSim_init (PN := 10%nat) new_environment g) in
  match fst (main_loop batches sim) !! j with
  | Some frame =>
      exists env',
        run_steps (10 * S j) sim = Ok env' /\
        time_steps (S j) (electrons sim) = Ok (electrons env') /\
        draw env' = Some frame
  | None => length (fst (main_loop batches sim)) <= j
  end%nat.
Proof.
  intros sim.
  destruct (fst (main_loop batches sim) !! j) as [frame|] eqn:Hj;
    [|apply lookup_ge_None_1; exact Hj].
  destruct (main_loop_frame batches sim j frame Hj) as (env' & Hrun & Hdraw).
  destruct (constructed_time_steps G RG 10%nat g (S j))
    as (env2 & _ & _ & Hrun2 & Hts & _).
  fold sim in Hrun2, Hts.
  change (@NUM_ELECTRONS 10%nat) with 10%nat in Hrun2.
  rewrite Nat.mul_comm in Hrun2. rewrite Hrun in Hrun2.
  injection Hrun2 as <-. exists env'. repeat split; assumption.
Qed.

End RealDriver.

(** ** Further concrete runs *)
Module MoreExampleFacts.

Import Float64.
Import Example.

(** The force on the second electron of [sim0] does not change with its
    velocity or with the accumulators in the list. *)
Lemma calculate_forces_reads_placements_witness :
  placement electron1 = placement electron1_fast /\
  map placement (electrons sim0) = map placement forces1 /\
  forces_of (calculate_forces electron1 (electrons sim0))
  = forces_of (calculate_forces electron1_fast forces1).
Proof.
  assert (H1 : placement electron1 = placement electron1_fast)
    by reflexivity.
  assert (H2 : map placement (electrons sim0) = map placement forces1)
    by (vm_compute; reflexivity).
  split; [exact H1|]. split; [exact H2|].
  exact (calculate_forces_reads_placements electron1 electron1_fast
           (electrons sim0) forces1 H1 H2).
Defined.

(** The first call of [env.step()] on [sim0]. *)
Lemma env_step_advances_one_electron_witness :
  env_step sim0 = Ok sim0_step /\
  exists ev q,
    queue sim0 = ev :: q /\
    now sim0_step = ev_time ev /\
    eid sim0_step = S (eid sim0) /\
    length (queue sim0_step) = length (queue sim0) /\
    map id (electrons sim0_step) = map id (electrons sim0).
Proof.
  assert (H : env_step sim0 = Ok sim0_step) by (vm_compute; reflexivity).
  split; [exact H|].
  destruct (env_step_advances_one_electron sim0 sim0_step H)
    as (ev & q & Hq & Hnow & He & Hlen & Hid & _).
  exists ev, q. repeat split; assumption.
Defined.

(** The first ten calls of [env.step()] on [sim0]. *)
Lemma run_steps_keeps_population_witness :
  run_steps 10 sim0 = Ok sim1 /\
  map id (electrons sim1) = map id (electrons sim0) /\
  length (get_positions sim1) = length (get_positions sim0) /\
  length (queue sim1) = length (queue sim0) /\
  eid sim1 = eid sim0 + 10.
Proof.
  assert (H : run_steps 10 sim0 = Ok sim1) by (vm_compute; reflexivity).
  split; [exact H|].
  exact (run_steps_keeps_population 10 sim0 sim1 H).
Defined.

(** After the first ten calls on the simulation built from [tape] the
    queue holds ten events; built without electrons, the first call raises
    [EmptySchedule]. *)
Lemma empty_schedule_only_without_electrons_witness :
  (run_steps 10 (fst (ElectronSim_init new_environment tape)) = Ok sim1 /\
   length (queue sim1) = NUM_ELECTRONS /\
   (env_step sim1 = Raise EmptySchedule <-> NUM_ELECTRONS = 0)) /\
  run_steps 1
    (fst (ElectronSim_init (PN := no_electrons) new_environment tape))
  = Raise EmptySchedule.
Proof.
  assert (H : run_steps 10 (fst (ElectronSim_init new_environment tape))
              = Ok sim1) by (vm_compute; reflexivity).
  split.
  - split; [exact H|].
    exact (proj2 (empty_schedule_only_without_electrons tape) 10 sim1 H).
  - exact (proj1 (empty_schedule_only_without_electrons
                    (PN := no_electrons) tape) eq_refl 0).
Defined.

End MoreExampleFacts.

Module MoreRealExampleFacts.

Import RealScalars.
Import RealFacts.
Import RealMore.
Import RealDriver.
Import RealExample.
#[local] Open Scope R_scope.

(** Three electrons drawn from [half_random]. *)
Lemma constructed_electrons_in_range_witness :
  (forall g' : unit, 0 <= fst (random g') <= 1) /\
  Forall (fun e => in_arena e /\
                   - V0 <= vx e <= V0 /\ - V0 <= vy e <= V0)
    (electrons (fst (ElectronSim_init (PN := 3%nat) new_environment tt))).
Proof.
  assert (H : forall g' : unit, 0 <= fst (random g') <= 1)
    by (intros g'; simpl; lra).
  split; [exact H|].
  exact (constructed_electrons_in_range unit half_random 3%nat tt H).
Defined.

Lemma arena_env_in_arena : Forall in_arena (electrons arena_env).
Proof.
  repeat constructor; unfold in_arena; rewrite ?max_x_value, ?max_y_value;
    simpl; lra.
Qed.

(** The circles of [arena_env]. *)
Lemma draw_stays_in_window_witness :
  Forall in_arena (electrons arena_env) /\
  exists circles,
    draw arena_env = Some circles /\
    length circles = 2%nat /\
    Forall in_window circles.
Proof.
  split; [exact arena_env_in_arena|].
  destruct (draw_stays_in_window arena_env arena_env_in_arena)
    as (circles & Hd & Hlen & Hw & _).
  exists circles. repeat split; assumption.
Defined.

(** Two electrons drawn from [half_random]; the window is closed during
    the second iteration. *)
Lemma main_loop_never_raises_witness :
  (0 < 2)%nat /\
  (forall g' : unit, 0 <= fst (random g') <= 1) /\
  Forall (fun frame => length frame = 2%nat /\ Forall in_window frame)
    (fst (main_loop [[OTHER]; [OTHER; QUIT]; []]
            (fst (ElectronSim_init (PN := 2%nat) new_environment tt)))).
Proof.
  assert (H1 : (0 < 2)%nat) by lia.
  assert (H2 : forall g' : unit, 0 <= fst (random g') <= 1)
    by (intros g'; simpl; lra).
  split; [exact H1|]. split; [exact H2|].
  exact (proj1 (main_loop_never_raises unit half_random 2%nat tt
                  [[OTHER]; [OTHER; QUIT]; []] H1 H2)).
Defined.

End MoreRealExampleFacts.
